(** * Ultimate Goalie: the per-frame simulation engine

    A shallow embedding of [src/types.ts], of the difficulty curve of
    [App.tsx] ([roundConfig]) and of the frame step of
    [src/components/GameCanvas.tsx] ([update], [takeShot], [endRound]).

    Numbers.  A JavaScript [number] is read as a real number: [+], [-], [*],
    [Math.sqrt], [Math.sin], [Math.max] and [Math.min] are the operations of
    [R], so rounding is not modelled.  Division is the one partial operation
    of the frame step: [dx / dist] with [dist = 0] is [0 / 0], which is [NaN]
    in JavaScript; the functions that divide return [option], and [None]
    stands for the [NaN] result.  Integer-valued numbers ([currentRound],
    [Date.now()], [frameCount]) are [Z].

    Effects.  The [useRef] cells are the fields of [State]; [update] passes
    the state explicitly.  [Math.random()] and [Date.now()] are read from an
    [Env] that holds one field per call site, and the calls a frame makes to
    the outside ([onRoundEnd], [draw], [requestAnimationFrame]) are returned
    as a list of [Event]s in call order. *)

From Stdlib Require Import Reals Lra Psatz ZArith List String Bool.
Import ListNotations.
Open Scope R_scope.

(** ** types.ts *)

Inductive SaveType : Set := body | stick | glove | butterfly | miss.

Inductive StickPosition : Set := UP | STRAIGHT | DOWN.

Record Vector2 : Type := mkVector2 { x : R; y : R }.

Record RoundConfig : Type := mkRoundConfig {
  roundNumber : Z;
  shooterSpeed : R;
  shotSpeed : R;
  aiIntelligence : R;
  curveFactor : R;
  jitter : R;
  isSlapShot : bool;
  hasPowerUp : bool;
  hasMagnet : bool
}.

(** ** Comparisons of numbers as booleans *)

Definition Rltb (a b : R) : bool := if Rlt_dec a b then true else false.
Definition Rgtb (a b : R) : bool := if Rgt_dec a b then true else false.
Definition Reqb (a b : R) : bool := if Req_dec_T a b then true else false.

(** ** App.tsx: the difficulty curve ([roundConfig], a [useMemo] of
       [currentRound]) *)

Definition roundConfig (currentRound : Z) : RoundConfig :=
  let ratio := (IZR currentRound - 1) / 9 in
  let shotSpeed0 := 8 + ratio * 12 in
  let shooterSpeed0 := 2 + ratio * 4 in
  let curveFactor0 := if Rgtb ratio 0.5 then (ratio - 0.5) * 2 else 0 in
  let isSlapShot0 := (currentRound =? 4)%Z in
  let hasPowerUp0 := (currentRound =? 9)%Z in
  let hasMagnet0 := (currentRound =? 5)%Z in
  let shotSpeed1 := if isSlapShot0 then shotSpeed0 * 1.2 else shotSpeed0 in
  let curveFactor1 := if (currentRound =? 7)%Z then 1.5 else curveFactor0 in
  {| roundNumber := currentRound;
     shooterSpeed := shooterSpeed0;
     shotSpeed := shotSpeed1;
     aiIntelligence := 0.2 + ratio * 0.8;
     curveFactor := curveFactor1;
     jitter := ratio * 0.8;
     isSlapShot := isSlapShot0;
     hasPowerUp := hasPowerUp0;
     hasMagnet := hasMagnet0 |}.

(** ** GameCanvas.tsx: constants *)

Definition GOALIE_RADIUS : R := 20.
Definition PUCK_RADIUS : R := 6.
Definition CANVAS_WIDTH : R := 800.
Definition CANVAS_HEIGHT : R := 600.
Definition GOAL_TOP : R := 170.
Definition GOAL_BOTTOM : R := 430.
Definition GOAL_X : R := 40.

(** ** GameCanvas.tsx: the mutable refs *)

Record State : Type := mkState {
  goaliePos : Vector2;
  stickPos : StickPosition;
  stanceLerp : R;
  shooterPos : Vector2;
  puckPos : Vector2;
  puckVel : Vector2;
  puckTrail : list Vector2;
  hasShot : bool;
  roundEnded : bool;
  keysPressed : list string;
  windUpStart : option Z;
  isDragging : bool;
  frameCount : Z
}.

(** What one frame reads from the host: the clock and the random source,
    one field per call site of [update] and [takeShot]. *)
Record Env : Type := mkEnv {
  now_sin : Z;        (* Date.now() of the lateral oscillation *)
  rnd_jitter : R;     (* Math.random() of the lateral jitter *)
  rnd_threshold : R;  (* Math.random() of shootThreshold *)
  now_shot : Z;       (* Date.now() of the wind-up start and of its test *)
  rnd_target : R;     (* Math.random() of takeShot *)
  rnd_curve : R       (* Math.random() of the curve drift *)
}.

(** What one frame calls outside the component. *)
Inductive Event : Type :=
| OnRoundEnd (success : bool) (saveType : option SaveType)
| Draw
| RequestFrame.

(** The state the round-reset effect writes. *)
Definition resetState : State :=
  {| goaliePos := {| x := 100; y := CANVAS_HEIGHT / 2 |};
     stickPos := STRAIGHT;
     stanceLerp := 0;
     shooterPos := {| x := CANVAS_WIDTH - 100; y := CANVAS_HEIGHT / 2 |};
     puckPos := {| x := CANVAS_WIDTH - 100; y := CANVAS_HEIGHT / 2 |};
     puckVel := {| x := 0; y := 0 |};
     puckTrail := [];
     hasShot := false;
     roundEnded := false;
     keysPressed := [];
     windUpStart := None;
     isDragging := false;
     frameCount := 0 |}.

(** ** Helpers of the embedding *)

(** [keysPressed.current.has(code)] *)
Definition has (keys : list string) (code : string) : bool :=
  existsb (String.eqb code) keys.

(** JavaScript truthiness of [windUpStart.current : number | null]. *)
Definition truthy (w : option Z) : bool :=
  match w with
  | Some t => negb (t =? 0)%Z
  | None => false
  end.

(** [Math.atan2(b, a)] on the reals (no signed zero: both arguments are
    differences of positions). *)
Definition atan2 (b a : R) : R :=
  if Rltb 0 a then atan (b / a)
  else if Rltb a 0 then
    (if Rltb b 0 then atan (b / a) - PI else atan (b / a) + PI)
  else if Rltb 0 b then PI / 2
  else if Rltb b 0 then - PI / 2
  else 0.

(** [Math.sqrt(dx*dx + dy*dy)] *)
Definition hypot (dx dy : R) : R := sqrt (dx * dx + dy * dy).

(** [Math.max(50, Math.min(140, v))] and
    [Math.max(50, Math.min(CANVAS_HEIGHT - 50, v))] *)
Definition clampX (v : R) : R := Rmax 50 (Rmin 140 v).
Definition clampY (v : R) : R := Rmax 50 (Rmin (CANVAS_HEIGHT - 50) v).

(** ** GameCanvas.tsx: [endRound] *)

Definition endRound (success : bool) (saveType : option SaveType) (s : State)
  : State * list Event :=
  (mkState (goaliePos s) (stickPos s) (stanceLerp s) (shooterPos s)
           (puckPos s) (puckVel s) (puckTrail s) (hasShot s)
           true
           (keysPressed s) (windUpStart s) (isDragging s) (frameCount s),
   [OnRoundEnd success saveType]).

(** ** GameCanvas.tsx: [takeShot] *)

(** The y-coordinate [finalTargetY] that [takeShot] aims at; [rnd] is its one
    [Math.random()]. *)
Definition finalTargetY (cfg : RoundConfig) (rnd : R) : R :=
  let goalCenter := (GOAL_TOP + GOAL_BOTTOM) / 2 in
  if Rgtb (aiIntelligence cfg) 0.5 then
    let corner := if Rgtb rnd 0.5 then GOAL_TOP + 15 else GOAL_BOTTOM - 15 in
    goalCenter + (corner - goalCenter) * aiIntelligence cfg
  else
    goalCenter + (rnd * 100 - 50).

Definition takeShot (cfg : RoundConfig) (rnd : R) (s : State) : option State :=
  let targetX := GOAL_X in
  let dx := targetX - x (puckPos s) in
  let dy := finalTargetY cfg rnd - y (puckPos s) in
  let dist := hypot dx dy in
  if Reqb dist 0 then None
  else
    Some (mkState (goaliePos s) (stickPos s) (stanceLerp s) (shooterPos s)
            (puckPos s)
            {| x := (dx / dist) * shotSpeed cfg;
               y := (dy / dist) * shotSpeed cfg |}
            (puckTrail s)
            true
            (roundEnded s) (keysPressed s) (windUpStart s) (isDragging s)
            (frameCount s)).

(** ** GameCanvas.tsx: [update], phase by phase *)

(** 1. Animation state: the stance interpolation. *)
Definition stanceStep (sp : StickPosition) (lerp : R) : R :=
  let targetStance := match sp with DOWN => 1.0 | _ => 0.0 end in
  lerp + (targetStance - lerp) * 0.15.

(** 2. Goalie movement from the held keys. *)
Definition goalieMovement (cfg : RoundConfig) (s : State) : Vector2 :=
  if isDragging s then goaliePos s
  else
    let baseSpeed := 4 in
    let speed := if hasPowerUp cfg then baseSpeed * 2 else baseSpeed in
    let k := has (keysPressed s) in
    let gy0 := y (goaliePos s) in
    let gx0 := x (goaliePos s) in
    let gy1 := if k "ArrowUp"%string || k "KeyW"%string then gy0 - speed else gy0 in
    let gy2 := if k "ArrowDown"%string || k "KeyS"%string then gy1 + speed else gy1 in
    let gx1 := if k "ArrowLeft"%string || k "KeyA"%string then gx0 - speed else gx0 in
    let gx2 := if k "ArrowRight"%string || k "KeyD"%string then gx1 + speed else gx1 in
    {| x := clampX gx2; y := clampY gy2 |}.

(** The first two phases together (with [frameCount.current++]). *)
Definition animateAndMove (cfg : RoundConfig) (s : State) : State :=
  mkState (goalieMovement cfg s) (stickPos s)
          (stanceStep (stickPos s) (stanceLerp s))
          (shooterPos s) (puckPos s) (puckVel s) (puckTrail s) (hasShot s)
          (roundEnded s) (keysPressed s) (windUpStart s) (isDragging s)
          (frameCount s + 1)%Z.

(** 3a. Shooter AI, the branch [!hasShot.current]. *)
Definition shooterAdvance (cfg : RoundConfig) (e : Env) (s : State) : Vector2 :=
  if negb (truthy (windUpStart s)) then
    let sx := x (shooterPos s) - shooterSpeed cfg in
    let time := IZR (now_sin e) / 200 in
    let sy := y (shooterPos s)
              + (sin time * shooterSpeed cfg * 0.5
                 + (rnd_jitter e - 0.5) * jitter cfg * 2) in
    {| x := sx; y := clampY sy |}
  else shooterPos s.

Definition shooterAI (cfg : RoundConfig) (e : Env) (s : State) : option State :=
  let sh := shooterAdvance cfg e s in
  let pk := {| x := x sh - 20; y := y sh |} in
  let s1 := mkState (goaliePos s) (stickPos s) (stanceLerp s) sh pk
              (puckVel s) (puckTrail s) (hasShot s) (roundEnded s)
              (keysPressed s) (windUpStart s) (isDragging s) (frameCount s) in
  let shootThreshold := 250 + rnd_threshold e * 100 in
  if Rltb (x sh) shootThreshold then
    if isSlapShot cfg && negb (truthy (windUpStart s)) then
      Some (mkState (goaliePos s1) (stickPos s1) (stanceLerp s1)
              (shooterPos s1) (puckPos s1) (puckVel s1) (puckTrail s1)
              (hasShot s1) (roundEnded s1) (keysPressed s1)
              (Some (now_shot e))
              (isDragging s1) (frameCount s1))
    else if isSlapShot cfg && truthy (windUpStart s) then
      match windUpStart s with
      | Some t0 =>
          if (500 <? now_shot e - t0)%Z then takeShot cfg (rnd_target e) s1
          else Some s1
      | None => Some s1
      end
    else takeShot cfg (rnd_target e) s1
  else Some s1.

(** 3b. Puck physics, the branch [hasShot.current]: the magnet. *)
Definition magnetInRange (g p : Vector2) : bool :=
  let dx := x g - x p in
  let dy := y g - y p in
  let dist := hypot dx dy in
  let angle := atan2 dy dx in
  Rltb dist 100 && (Rgtb angle (- PI * 0.75) && Rltb angle (PI * 0.75)).

Definition magnetPull (cfg : RoundConfig) (g p v : Vector2) : option Vector2 :=
  if hasMagnet cfg then
    let dx := x g - x p in
    let dy := y g - y p in
    let dist := hypot dx dy in
    if magnetInRange g p then
      if Reqb dist 0 then None
      else Some {| x := x v + dx / dist * 2; y := y v + dy / dist * 2 |}
    else Some v
  else Some v.

(** The curve drift of the vertical velocity. *)
Definition curveDrift (cfg : RoundConfig) (e : Env) (v : Vector2) : Vector2 :=
  if Reqb (curveFactor cfg) 0 then v
  else {| x := x v; y := y v + (rnd_curve e - 0.5) * curveFactor cfg * 0.4 |}.

(** [puckTrail.current.push(p)], then [shift()] above 15 entries. *)
Definition pushTrail (trail : list Vector2) (p : Vector2) : list Vector2 :=
  let trail1 := trail ++ [p] in
  if (15 <? List.length trail1)%nat then tl trail1 else trail1.

Definition puckPhysics (cfg : RoundConfig) (e : Env) (s : State) : option State :=
  match magnetPull cfg (goaliePos s) (puckPos s) (puckVel s) with
  | None => None
  | Some v1 =>
      let p1 := {| x := x (puckPos s) + x v1; y := y (puckPos s) + y v1 |} in
      Some (mkState (goaliePos s) (stickPos s) (stanceLerp s) (shooterPos s)
              p1 (curveDrift cfg e v1) (pushTrail (puckTrail s) p1)
              (hasShot s) (roundEnded s) (keysPressed s) (windUpStart s)
              (isDragging s) (frameCount s))
  end.

(** 4. Collision detection: the zones, in the order of the source. *)
Definition inBody (s : State) : bool :=
  let dx := x (puckPos s) - x (goaliePos s) in
  let dy := y (puckPos s) - y (goaliePos s) in
  Rltb (hypot dx dy) (GOALIE_RADIUS + PUCK_RADIUS).

Definition inStick (s : State) : bool :=
  let stickYOffset :=
    match stickPos s with UP => -35 | DOWN => 35 | STRAIGHT => 0 end in
  let stickX := x (goaliePos s) + 20 in
  let stickY := y (goaliePos s) + stickYOffset in
  let stickRadius := 18 in
  let sdx := x (puckPos s) - stickX in
  let sdy := y (puckPos s) - stickY in
  Rltb (hypot sdx sdy) (stickRadius + PUCK_RADIUS).

Definition inGlove (s : State) : bool :=
  match stickPos s with
  | UP =>
      Rgtb (x (puckPos s)) (x (goaliePos s) - 35)
      && Rltb (x (puckPos s)) (x (goaliePos s) + 35)
      && Rgtb (y (puckPos s)) (y (goaliePos s) - 70)
      && Rltb (y (puckPos s)) (y (goaliePos s) - 15)
  | _ => false
  end.

Definition inButterfly (s : State) : bool :=
  match stickPos s with
  | DOWN =>
      Rgtb (x (puckPos s)) (x (goaliePos s) - 60)
      && Rltb (x (puckPos s)) (x (goaliePos s) + 60)
      && Rgtb (y (puckPos s)) (y (goaliePos s) + 10)
      && Rltb (y (puckPos s)) (y (goaliePos s) + 50)
  | _ => false
  end.

Definition pastGoalLine (s : State) : bool :=
  Rltb (x (puckPos s)) (GOAL_X + 5).

Definition inGoalMouth (s : State) : bool :=
  Rgtb (y (puckPos s)) GOAL_TOP && Rltb (y (puckPos s)) GOAL_BOTTOM.

Definition outOfCanvas (s : State) : bool :=
  Rltb (x (puckPos s)) 0 || Rltb (y (puckPos s)) 0
  || Rgtb (y (puckPos s)) CANVAS_HEIGHT.

(** The goal-line test and the canvas-edge test: neither returns, so both
    run, and then the frame is drawn and the next one requested. *)
Definition goalLineCheck (s : State) : State * list Event :=
  if pastGoalLine s then
    if inGoalMouth s then endRound false None s
    else endRound true (Some miss) s
  else (s, []).

Definition canvasEdgeCheck (s : State) : State * list Event :=
  if outOfCanvas s then endRound true (Some miss) s else (s, []).

Definition collisionDetection (s : State) : State * list Event :=
  if inBody s then endRound true (Some body) s
  else if inStick s then endRound true (Some stick) s
  else if inGlove s then endRound true (Some glove) s
  else if inButterfly s then endRound true (Some butterfly) s
  else
    let (s1, ev1) := goalLineCheck s in
    let (s2, ev2) := canvasEdgeCheck s1 in
    (s2, ev1 ++ ev2 ++ [Draw; RequestFrame]).

(** The frame step. *)
Definition update (cfg : RoundConfig) (e : Env) (s : State)
  : option (State * list Event) :=
  if roundEnded s then Some (s, [])
  else
    let s1 := animateAndMove cfg s in
    match (if negb (hasShot s1) then shooterAI cfg e s1
           else puckPhysics cfg e s1) with
    | None => None
    | Some s2 => Some (collisionDetection s2)
    end.

(** The frame step invoked once per element of [es], whatever it returned
    before. *)
Fixpoint frames (cfg : RoundConfig) (es : list Env) (s : State)
  : option (State * list Event) :=
  match es with
  | [] => Some (s, [])
  | e :: es' =>
      match update cfg e s with
      | None => None
      | Some (s1, ev1) =>
          match frames cfg es' s1 with
          | None => None
          | Some (s2, ev2) => Some (s2, ev1 ++ ev2)
          end
      end
  end.

(** The outcomes a list of events reports to the round manager. *)
Definition reports (ev : list Event) : list (bool * option SaveType) :=
  flat_map (fun e => match e with
                     | OnRoundEnd ok st => [(ok, st)]
                     | _ => []
                     end) ev.

(** A run of frames in which every frame starts with the round still open
    and returns a state. *)
Fixpoint liveFrames (cfg : RoundConfig) (es : list Env) (s : State) : Prop :=
  match es with
  | [] => True
  | e :: es' =>
      roundEnded s = false
      /\ match update cfg e s with
         | Some (s1, _) => liveFrames cfg es' s1
         | None => False
         end
  end.

(** The value the stance interpolation moves toward. *)
Definition targetStance (sp : StickPosition) : R :=
  match sp with DOWN => 1.0 | _ => 0.0 end.

(** ** GameCanvas.tsx: the input handlers *)

(** [keysPressed.current.add(code)] and [.delete(code)]: the set is a list
    in insertion order, as a JavaScript [Set] iterates. *)
Definition addKey (code : string) (keys : list string) : list string :=
  if has keys code then keys else keys ++ [code].

Definition deleteKey (code : string) (keys : list string) : list string :=
  filter (fun k => negb (String.eqb code k)) keys.

(** The three stick assignments of [handleKeyDown], in source order. *)
Definition stickOfKey (code : string) (sp : StickPosition) : StickPosition :=
  let sp1 := if String.eqb code "Digit1" || String.eqb code "KeyZ"
             then UP else sp in
  let sp2 := if String.eqb code "Digit2" || String.eqb code "KeyX"
             then STRAIGHT else sp1 in
  if String.eqb code "Digit3" || String.eqb code "KeyC" then DOWN else sp2.

Definition handleKeyDown (code : string) (s : State) : State :=
  if roundEnded s then s
  else
    mkState (goaliePos s) (stickOfKey code (stickPos s)) (stanceLerp s)
            (shooterPos s) (puckPos s) (puckVel s) (puckTrail s) (hasShot s)
            (roundEnded s) (addKey code (keysPressed s)) (windUpStart s)
            (isDragging s) (frameCount s).

Definition handleKeyUp (code : string) (s : State) : State :=
  mkState (goaliePos s) (stickPos s) (stanceLerp s)
          (shooterPos s) (puckPos s) (puckVel s) (puckTrail s) (hasShot s)
          (roundEnded s) (deleteKey code (keysPressed s)) (windUpStart s)
          (isDragging s) (frameCount s).

(** [updateGoalieFromTouch]: [target] is the touch point already mapped to
    canvas coordinates, [(targetX, targetY)] of the source. *)
Definition updateGoalieFromTouch (target : Vector2) (s : State) : State :=
  let targetX := x target in
  let targetY := y target in
  let sp := if Rgtb targetY (CANVAS_HEIGHT * 0.66) then DOWN
            else if Rltb targetY (CANVAS_HEIGHT * 0.33) then UP
            else STRAIGHT in
  mkState {| x := clampX targetX; y := clampY targetY |} sp (stanceLerp s)
          (shooterPos s) (puckPos s) (puckVel s) (puckTrail s) (hasShot s)
          (roundEnded s) (keysPressed s) (windUpStart s)
          (isDragging s) (frameCount s).

Definition handleTouchStart (target : Vector2) (s : State) : State :=
  updateGoalieFromTouch target
    (mkState (goaliePos s) (stickPos s) (stanceLerp s)
             (shooterPos s) (puckPos s) (puckVel s) (puckTrail s) (hasShot s)
             (roundEnded s) (keysPressed s) (windUpStart s)
             true (frameCount s)).

Definition handleTouchMove (target : Vector2) (s : State) : State :=
  if isDragging s && negb (roundEnded s) then updateGoalieFromTouch target s
  else s.

Definition handleTouchEnd (s : State) : State :=
  mkState (goaliePos s) (stickPos s) (stanceLerp s)
          (shooterPos s) (puckPos s) (puckVel s) (puckTrail s) (hasShot s)
          (roundEnded s) (keysPressed s) (windUpStart s)
          false (frameCount s).

(** What happens to the component between two renders: an input event or a
    frame. *)
Inductive InputEvent : Type :=
| KeyDown (code : string)
| KeyUp (code : string)
| TouchStart (target : Vector2)
| TouchMove (target : Vector2)
| TouchEnd.

Definition handleInput (i : InputEvent) (s : State) : State :=
  match i with
  | KeyDown code => handleKeyDown code s
  | KeyUp code => handleKeyUp code s
  | TouchStart target => handleTouchStart target s
  | TouchMove target => handleTouchMove target s
  | TouchEnd => handleTouchEnd s
  end.

Inductive Step : Type :=
| Frame (e : Env)
| Input (i : InputEvent).

Fixpoint run (cfg : RoundConfig) (steps : list Step) (s : State)
  : option (State * list Event) :=
  match steps with
  | [] => Some (s, [])
  | Input i :: rest => run cfg rest (handleInput i s)
  | Frame e :: rest =>
      match update cfg e s with
      | None => None
      | Some (s1, ev1) =>
          match run cfg rest s1 with
          | None => None
          | Some (s2, ev2) => Some (s2, ev1 ++ ev2)
          end
      end
  end.

(** ** GameCanvas.tsx: the falling caps *)

(** The [hatTrickActive] effect; [rnd k] is the [k]-th [Math.random()] of
    the spawning loop (two per cap, [x] first). *)
Definition spawnHats (rnd : nat -> R) : list Vector2 :=
  map (fun i => {| x := rnd (2 * i)%nat * CANVAS_WIDTH;
                   y := rnd (2 * i + 1)%nat * CANVAS_HEIGHT |})
      (seq 0 30).

Definition hatTrickEffect (hatTrickActive : bool) (rnd : nat -> R)
  (hats : list Vector2) : list Vector2 :=
  if hatTrickActive && (List.length hats =? 0)%nat then spawnHats rnd
  else if negb hatTrickActive then []
  else hats.

(** [drawHats], as far as it writes the caps; [rnd] is the [Math.random()]
    of the cap being moved. *)
Definition fallHat (rnd : R) (hat : Vector2) : Vector2 :=
  let y1 := y hat + 2 in
  if Rgtb y1 CANVAS_HEIGHT then {| x := rnd * CANVAS_WIDTH; y := -20 |}
  else {| x := x hat; y := y1 |}.

Fixpoint drawHats (rnds : nat -> R) (i : nat) (hats : list Vector2)
  : list Vector2 :=
  match hats with
  | [] => []
  | hat :: rest => fallHat (rnds i) hat :: drawHats rnds (S i) rest
  end.

(** ** App.tsx: the round manager *)

Inductive GameState : Set :=
| MENU | PLAYING | ROUND_TRANSITION | ROUND_WON | ROUND_LOST | GAME_OVER.

(** The [useState] cells of [App] that the round logic reads or writes. *)
Record AppState : Type := mkAppState {
  gameState : GameState;
  currentRound : Z;
  score : Z;
  consecutiveAIScores : Z;
  hatTrickActive : bool;
  consecutiveSaves : Z;
  octopusActive : bool;
  magnetActive : bool
}.

(** The initial [useState] values. *)
Definition initialApp : AppState :=
  mkAppState MENU 1 0 0 false 0 false false.

Definition startGame (a : AppState) : AppState :=
  mkAppState PLAYING 1 0 0 false 0 false false.

(** The synchronous part of [handleRoundEnd].  [seen] is the render whose
    [consecutiveSaves] and [consecutiveAIScores] the callback closed over;
    the [set...(prev => ...)] updaters read the state [a] they are applied
    to. *)
Definition handleRoundEnd (seen : AppState) (success : bool) (a : AppState)
  : AppState :=
  if success then
    mkAppState ROUND_WON (currentRound a) (score a + 1) 0
      (hatTrickActive a) (consecutiveSaves a + 1)
      (if (consecutiveSaves seen =? 5)%Z then true else octopusActive a)
      (magnetActive a)
  else
    mkAppState ROUND_LOST (currentRound a) (score a)
      (consecutiveAIScores a + 1)
      (if (consecutiveAIScores seen =? 2)%Z then true else hatTrickActive a)
      0 (octopusActive a) (magnetActive a).

(** The label [handleRoundEnd] passes to the commentary service. *)
Definition shotType (cfg : RoundConfig) (round : Z) : string :=
  let t0 := ""%string in
  let t1 := if isSlapShot cfg then "Slap Shot"%string else t0 in
  let t2 := if hasPowerUp cfg then "Power Shot"%string else t1 in
  if (round =? 7)%Z then "Curveball"%string else t2.

Definition proceedToNextOrEnd (a : AppState) : AppState :=
  mkAppState (if (10 <=? currentRound a)%Z then GAME_OVER
              else ROUND_TRANSITION)
    (currentRound a) (score a) (consecutiveAIScores a) (hatTrickActive a)
    (consecutiveSaves a) (octopusActive a) (magnetActive a).

Definition nextRound (a : AppState) : AppState :=
  mkAppState PLAYING (currentRound a + 1) (score a) (consecutiveAIScores a)
    (hatTrickActive a) (consecutiveSaves a) (octopusActive a)
    (magnetActive a).

Definition resetGame (a : AppState) : AppState :=
  mkAppState MENU (currentRound a) (score a) (consecutiveAIScores a)
    (hatTrickActive a) (consecutiveSaves a) (octopusActive a)
    (magnetActive a).

(** What the user and the hosts can make [App] do, each where the source
    offers it: the start button on the menu, the canvas's report while the
    canvas is mounted and the round manager is PLAYING, the next button on
    the result overlay, the 500 ms timer of the transition, the back button
    on the final screen. *)
Inductive AppEvent : Type :=
| StartGame
| RoundEnd (success : bool)
| Proceed
| TransitionTimer
| BackToMenu.

Definition appStep (ev : AppEvent) (a : AppState) : AppState :=
  match ev, gameState a with
  | StartGame, MENU => startGame a
  | RoundEnd ok, PLAYING => handleRoundEnd a ok a
  | Proceed, ROUND_WON => proceedToNextOrEnd a
  | Proceed, ROUND_LOST => proceedToNextOrEnd a
  | TransitionTimer, ROUND_TRANSITION => nextRound a
  | BackToMenu, GAME_OVER => resetGame a
  | _, _ => a
  end.

Definition appRun (evs : list AppEvent) (a : AppState) : AppState :=
  fold_left (fun st ev => appStep ev st) evs a.

(** One round as the round manager sees it: the canvas reports, the user
    presses the next button, the transition timer fires. *)
Definition playRound (success : bool) : list AppEvent :=
  [RoundEnd success; Proceed; TransitionTimer].

(** ** geminiService: [getCommentary] *)

(** What the remote call does: it throws, or it answers with a
    [response.text] that may be undefined. *)
Inductive ServiceReply : Type :=
| Throws
| Replies (text : option string).

(** The three interpolated parts of the prompt, in place of the template
    string. *)
Record Prompt : Type := mkPrompt {
  promptRound : Z;
  promptShotType : string;
  promptOutcome : string
}.

Definition outcomeDetails (won : bool) (saveType : option SaveType) : string :=
  if won then
    match saveType with
    | Some glove => "snagged it with a brilliant glove save!"
    | Some butterfly => "dropped into a butterfly and denied it!"
    | Some stick => "made a sharp stick save!"
    | Some body => "blocked it with the body, a human wall!"
    | Some miss => "forced the AI to shoot wide!"
    | None => "SAVED the shot!"
    end%string
  else "ALLOWED a goal."%string.

(** JavaScript truthiness of a string: [shotType || ...], [response.text ||
    ...]. *)
Definition nonEmpty (t : string) : bool := negb (String.eqb t "").

Definition commentaryPrompt (round : Z) (won : bool) (label : string)
  (saveType : option SaveType) : Prompt :=
  {| promptRound := round;
     promptShotType := if nonEmpty label then label
                       else "Standard Shot"%string;
     promptOutcome := outcomeDetails won saveType |}.

(** [genAI] is [None] without an API key, and otherwise the remote call as a
    function of the prompt. *)
Definition getCommentary (genAI : option (Prompt -> ServiceReply))
  (round : Z) (won : bool) (label : string) (saveType : option SaveType)
  : string :=
  match genAI with
  | None =>
      if won then "Great save! Ready for the next round?"%string
      else "Goal! Shake it off, goalie."%string
  | Some generateContent =>
      match generateContent (commentaryPrompt round won label saveType) with
      | Replies (Some text) =>
          if nonEmpty text then text
          else if won then "What a save!"%string
               else "It's in the net!"%string
      | Replies None =>
          if won then "What a save!"%string else "It's in the net!"%string
      | Throws =>
          if won then "Spectacular save!"%string
          else "Tough break, goalie!"%string
      end
  end.

(** ** Predicates of the properties *)

(** A cap is on the canvas or just above it, where [drawHats] re-enters
    it. *)
Definition hatOk (hat : Vector2) : Prop :=
  0 <= x hat < CANVAS_WIDTH /\ -20 <= y hat <= CANVAS_HEIGHT.

(** The goalie's movement box. *)
Definition inBox (g : Vector2) : Prop :=
  50 <= x g <= 140 /\ 50 <= y g <= 550.

(** What a frame may read from the host: a draw of [Math.random()] is in
    [0, 1) and [Date.now()] is not the epoch itself. *)
Definition EnvOk (e : Env) : Prop :=
  0 <= rnd_threshold e < 1 /\ (now_shot e <> 0)%Z.

Definition stepOk (st : Step) : Prop :=
  match st with
  | Frame e => EnvOk e
  | Input _ => True
  end.

(** Before release: the round is open, the goalie is in its box, the shooter
    is in its lane and has not passed the lowest threshold by more than one
    stride. *)
Definition approaching (cfg : RoundConfig) (s : State) : Prop :=
  hasShot s = false /\ roundEnded s = false
  /\ inBox (goaliePos s)
  /\ 50 <= y (shooterPos s) <= 550
  /\ 250 - shooterSpeed cfg <= x (shooterPos s)
  /\ (truthy (windUpStart s) = false -> 250 <= x (shooterPos s)).

(** ** Sample inputs *)

(** A frame's readings: clock [1600] ms, every random draw [0.5]. *)
Definition midEnv : Env :=
  {| now_sin := 1600; rnd_jitter := 0.5; rnd_threshold := 0.5;
     now_shot := 1600; rnd_target := 0.5; rnd_curve := 0.5 |}.

(** The state of a round after release, with the goalie at [g], no key held,
    the stick straight, and the puck at [p] moving with [v]. *)
Definition inFlight (g p v : Vector2) : State :=
  {| goaliePos := g;
     stickPos := STRAIGHT;
     stanceLerp := 0;
     shooterPos := {| x := 300; y := 300 |};
     puckPos := p;
     puckVel := v;
     puckTrail := [];
     hasShot := true;
     roundEnded := false;
     keysPressed := [];
     windUpStart := None;
     isDragging := false;
     frameCount := 100 |}.

(** Magnet round, puck one frame away from the top-left corner of the
    canvas, goalie at its spawn point. *)
Definition cornerExit : State :=
  inFlight {| x := 100; y := 300 |} {| x := 50; y := 8 |}
           {| x := -10; y := -12 |}.


(** Slap-shot round, wind-up started at clock [t0] with the shooter stopped
    at abscissa [sx]. *)
Definition windingUp (t0 : Z) (sx : R) : State :=
  {| goaliePos := {| x := 100; y := 300 |};
     stickPos := STRAIGHT;
     stanceLerp := 0;
     shooterPos := {| x := sx; y := 300 |};
     puckPos := {| x := sx - 20; y := 300 |};
     puckVel := {| x := 0; y := 0 |};
     puckTrail := [];
     hasShot := false;
     roundEnded := false;
     keysPressed := [];
     windUpStart := Some t0;
     isDragging := false;
     frameCount := 110 |}.

(** After physics: the puck past the goal line at the height of the top
    post, away from the goalie. *)
Definition onThePost : State :=
  inFlight {| x := 100; y := 300 |} {| x := 42; y := 170 |}
           {| x := -12; y := -3 |}.

(** Magnet round, the puck below and to the left of the goalie, 64 away. *)
Definition besideTheGoalie : State :=
  inFlight {| x := 100; y := 300 |} {| x := 60; y := 250 |}
           {| x := -13; y := 2 |}.

(** Before release: the shooter at [(300, 300)] carrying the puck. *)
Definition carrying : State :=
  {| goaliePos := {| x := 100; y := 300 |};
     stickPos := STRAIGHT;
     stanceLerp := 0;
     shooterPos := {| x := 300; y := 300 |};
     puckPos := {| x := 280; y := 300 |};
     puckVel := {| x := 0; y := 0 |};
     puckTrail := [];
     hasShot := false;
     roundEnded := false;
     keysPressed := [];
     windUpStart := None;
     isDragging := false;
     frameCount := 120 |}.

(** The puck exactly at the point round 1 aims at when its random draw is
    [0.5]: the centre of the goal mouth on the goal line. *)
Definition atTheTarget : State :=
  inFlight {| x := 100; y := 500 |} {| x := 40; y := 300 |}
           {| x := 0; y := 0 |}.

(** After release, the goalie crouched with the stick DOWN from the first
    frame on, the puck still far from the goal. *)
Definition crouching : State :=
  {| goaliePos := {| x := 100; y := 300 |};
     stickPos := DOWN;
     stanceLerp := 0;
     shooterPos := {| x := 620; y := 300 |};
     puckPos := {| x := 600; y := 300 |};
     puckVel := {| x := -8; y := 0 |};
     puckTrail := [];
     hasShot := true;
     roundEnded := false;
     keysPressed := [];
     windUpStart := None;
     isDragging := false;
     frameCount := 0 |}.

(** * Properties *)

(** ** Reading the boolean comparisons *)

Lemma Rltb_true (a b : R) : Rltb a b = true <-> a < b.
Proof. unfold Rltb. destruct (Rlt_dec a b); split; intros; lra || congruence. Qed.

Lemma Rltb_false (a b : R) : Rltb a b = false <-> b <= a.
Proof. unfold Rltb. destruct (Rlt_dec a b); split; intros; lra || congruence. Qed.

Lemma Rgtb_true (a b : R) : Rgtb a b = true <-> b < a.
Proof. unfold Rgtb. destruct (Rgt_dec a b); split; intros; lra || congruence. Qed.

Lemma Rgtb_false (a b : R) : Rgtb a b = false <-> a <= b.
Proof. unfold Rgtb. destruct (Rgt_dec a b); split; intros; lra || congruence. Qed.

Lemma Reqb_true (a b : R) : Reqb a b = true <-> a = b.
Proof. unfold Reqb. destruct (Req_dec_T a b); split; intros; congruence. Qed.

Lemma Reqb_false (a b : R) : Reqb a b = false <-> a <> b.
Proof. unfold Reqb. destruct (Req_dec_T a b); split; intros; congruence. Qed.

(** Decide every comparison of the goal by linear arithmetic. *)
Ltac Rcompare :=
  repeat match goal with
  | |- context [Rltb ?a ?b] =>
      first [ rewrite (proj2 (Rltb_true a b)) by lra
            | rewrite (proj2 (Rltb_false a b)) by lra ]
  | |- context [Rgtb ?a ?b] =>
      first [ rewrite (proj2 (Rgtb_true a b)) by lra
            | rewrite (proj2 (Rgtb_false a b)) by lra ]
  | |- context [Reqb ?a ?b] =>
      first [ rewrite (proj2 (Reqb_true a b)) by lra
            | rewrite (proj2 (Reqb_false a b)) by lra ]
  end.

(** ** The difficulty curve *)

Lemma round_cases (n : Z) :
  (1 <= n <= 10)%Z ->
  n = 1%Z \/ n = 2%Z \/ n = 3%Z \/ n = 4%Z \/ n = 5%Z \/
  n = 6%Z \/ n = 7%Z \/ n = 8%Z \/ n = 9%Z \/ n = 10%Z.
Proof. lia. Qed.

(** C5.  For every round 1..10, with [ratio = (round - 1) / 9], the derived
    configuration is the documented piecewise curve: shooter speed
    [2 + 4 ratio]; shot speed [8 + 12 ratio], times [1.2] exactly in round 4;
    intelligence [0.2 + 0.8 ratio]; jitter [0.8 ratio]; curve factor [0] in
    rounds 1-5, [(ratio - 0.5) * 2] in rounds 6 and 8-10, and [1.5] in round
    7 and in no other round; slap shot exactly in round 4, power-up exactly
    in round 9, magnet exactly in round 5. *)
Theorem roundConfig_piecewise_curve (n : Z) (Hn : (1 <= n <= 10)%Z) :
  let ratio := (IZR n - 1) / 9 in
  let c := roundConfig n in
  shooterSpeed c = 2 + 4 * ratio
  /\ shotSpeed c
     = (if (n =? 4)%Z then (8 + 12 * ratio) * 1.2 else 8 + 12 * ratio)
  /\ aiIntelligence c = 0.2 + 0.8 * ratio
  /\ jitter c = 0.8 * ratio
  /\ ((1 <= n <= 5)%Z -> curveFactor c = 0)
  /\ ((n = 6 \/ 8 <= n <= 10)%Z -> curveFactor c = (ratio - 0.5) * 2)
  /\ (curveFactor c = 1.5 <-> n = 7%Z)
  /\ (isSlapShot c = true <-> n = 4%Z)
  /\ (hasPowerUp c = true <-> n = 9%Z)
  /\ (hasMagnet c = true <-> n = 5%Z).
Proof.
  intros ratio c. subst ratio c.
  destruct (round_cases n Hn) as [E|[E|[E|[E|[E|[E|[E|[E|[E|E]]]]]]]]];
    subst n; unfold roundConfig; cbn [Z.eqb Pos.eqb shooterSpeed shotSpeed
      aiIntelligence jitter curveFactor isSlapShot hasPowerUp hasMagnet];
    Rcompare;
    repeat split; intros; try lra; try lia; try congruence.
Qed.

(** Round 4 and round 7, evaluated. *)
Lemma roundConfig_piecewise_curve_witness :
  (1 <= 4 <= 10)%Z
  /\ shotSpeed (roundConfig 4) = (8 + 12 * ((IZR 4 - 1) / 9)) * 1.2
  /\ (curveFactor (roundConfig 7) = 1.5 <-> 7%Z = 7%Z).
Proof.
  assert (H4 : (1 <= 4 <= 10)%Z) by lia.
  assert (H7 : (1 <= 7 <= 10)%Z) by lia.
  split; [exact H4|]. split.
  - destruct (roundConfig_piecewise_curve 4%Z H4) as (_ & Hs & _).
    exact Hs.
  - destruct (roundConfig_piecewise_curve 7%Z H7)
      as (_ & _ & _ & _ & _ & _ & Hc & _).
    exact Hc.
Defined.

(** ** Distances *)

Lemma sumsq_nonneg (dx dy : R) : 0 <= dx * dx + dy * dy.
Proof. nra. Qed.

Lemma hypot_nonneg (dx dy : R) : 0 <= hypot dx dy.
Proof. apply sqrt_pos. Qed.

Lemma hypot_sqr (dx dy : R) : hypot dx dy * hypot dx dy = dx * dx + dy * dy.
Proof. apply sqrt_sqrt, sumsq_nonneg. Qed.

Lemma hypot_eq_0 (dx dy : R) : hypot dx dy = 0 <-> dx = 0 /\ dy = 0.
Proof.
  split.
  - intros H. apply sqrt_eq_0 in H; [|apply sumsq_nonneg]. split; nra.
  - intros [-> ->]. unfold hypot.
    replace (0 * 0 + 0 * 0) with 0 by ring. apply sqrt_0.
Qed.

Lemma hypot_lt (dx dy c : R) :
  0 < c -> (hypot dx dy < c <-> dx * dx + dy * dy < c * c).
Proof.
  intros Hc. pose proof (hypot_nonneg dx dy) as Hn.
  pose proof (hypot_sqr dx dy) as Hs. split; intros H; nra.
Qed.

(** Decide a distance test on concrete coordinates. *)
Ltac hypot_compare :=
  repeat match goal with
  | |- context [Rltb (hypot ?a ?b) ?c] =>
      first [ rewrite (proj2 (Rltb_true (hypot a b) c))
                by (apply hypot_lt; lra)
            | rewrite (proj2 (Rltb_false (hypot a b) c))
                by (apply Rnot_lt_le; intros Hlt;
                    apply hypot_lt in Hlt; lra) ]
  end.

(** ** The frozen state after resolution *)

Lemma update_after_round_end (cfg : RoundConfig) (e : Env) (s : State) :
  roundEnded s = true -> update cfg e s = Some (s, []).
Proof. intros H. unfold update. rewrite H. reflexivity. Qed.

Lemma frames_frozen_closed (cfg : RoundConfig) (es : list Env) (s : State) :
  roundEnded s = true -> frames cfg es s = Some (s, []).
Proof.
  intros Hended. induction es as [|e es IH]; cbn [frames].
  - reflexivity.
  - rewrite (update_after_round_end cfg e s Hended), IH. reflexivity.
Qed.

(** C9.  Once the round-ended flag is set, any number of further
    invocations of the frame step returns the state as it was (goalie,
    shooter, puck, velocity, stance, trail and every other field), reports
    nothing, draws nothing and requests no frame. *)
Theorem frames_frozen_after_round_end
  (cfg : RoundConfig) (es : list Env) (s : State)
  (Hended : roundEnded s = true) :
  frames cfg es s = Some (s, []).
Proof. exact (frames_frozen_closed cfg es s Hended). Qed.

Lemma frames_frozen_after_round_end_witness :
  frames (roundConfig 1) [midEnv; midEnv; midEnv]
         (fst (endRound true (Some body) resetState))
  = Some (fst (endRound true (Some body) resetState), []).
Proof.
  apply frames_frozen_after_round_end. reflexivity.
Defined.

(** ** Evaluating a frame on concrete states *)

Lemma clampX_id (v : R) : 50 <= v <= 140 -> clampX v = v.
Proof.
  intros H. unfold clampX, Rmax, Rmin. repeat destruct (Rle_dec _ _); lra.
Qed.

Lemma clampY_id (v : R) : 50 <= v <= 550 -> clampY v = v.
Proof.
  intros H. unfold clampY, CANVAS_HEIGHT, Rmax, Rmin.
  repeat destruct (Rle_dec _ _); lra.
Qed.

Ltac unfold_frame :=
  unfold update, animateAndMove, puckPhysics, shooterAI, shooterAdvance,
    magnetPull, magnetInRange, goalieMovement, collisionDetection,
    goalLineCheck, canvasEdgeCheck, endRound, inBody, inStick, inGlove,
    inButterfly, pastGoalLine, inGoalMouth, outOfCanvas, curveDrift,
    takeShot, finalTargetY, GOALIE_RADIUS, PUCK_RADIUS, CANVAS_WIDTH,
    CANVAS_HEIGHT, GOAL_TOP, GOAL_BOTTOM, GOAL_X.

Ltac frame_fields :=
  cbn [goaliePos stickPos stanceLerp shooterPos puckPos puckVel puckTrail
       hasShot roundEnded keysPressed windUpStart isDragging frameCount x y
       roundNumber shooterSpeed shotSpeed aiIntelligence curveFactor jitter
       isSlapShot hasPowerUp hasMagnet
       now_sin rnd_jitter rnd_threshold now_shot rnd_target rnd_curve
       negb andb orb has existsb truthy Z.eqb Pos.eqb option_map snd fst].

Ltac eval_frame :=
  repeat (frame_fields; hypot_compare; Rcompare).

(** ** The collision zones *)

Lemma inGoalMouth_true (s : State) :
  inGoalMouth s = true <-> GOAL_TOP < y (puckPos s) < GOAL_BOTTOM.
Proof.
  unfold inGoalMouth. rewrite andb_true_iff, Rgtb_true, Rltb_true. tauto.
Qed.

Lemma outOfCanvas_true (s : State) :
  outOfCanvas s = true
  <-> x (puckPos s) < 0 \/ y (puckPos s) < 0 \/ CANVAS_HEIGHT < y (puckPos s).
Proof.
  unfold outOfCanvas.
  rewrite !orb_true_iff, !Rltb_true, Rgtb_true. tauto.
Qed.

(** The four save zones are tried in order and each one returns at once:
    one report, no drawing, no further frame requested. *)
Lemma collision_save_priority (s : State) :
  (inBody s = true ->
   collisionDetection s = endRound true (Some body) s)
  /\ (inBody s = false -> inStick s = true ->
      collisionDetection s = endRound true (Some stick) s)
  /\ (inBody s = false -> inStick s = false -> inGlove s = true ->
      collisionDetection s = endRound true (Some glove) s)
  /\ (inBody s = false -> inStick s = false -> inGlove s = false ->
      inButterfly s = true ->
      collisionDetection s = endRound true (Some butterfly) s).
Proof.
  unfold collisionDetection. repeat split; intros;
    repeat match goal with H : _ = _ |- _ => rewrite H; clear H end;
    reflexivity.
Qed.

Lemma glove_only_up (s : State) : inGlove s = true -> stickPos s = UP.
Proof. unfold inGlove. destruct (stickPos s); congruence. Qed.

Lemma butterfly_only_down (s : State) :
  inButterfly s = true -> stickPos s = DOWN.
Proof. unfold inButterfly. destruct (stickPos s); congruence. Qed.

(** Past the save zones, the goal-line test and the canvas-edge test both
    run: the frame reports as many outcomes as tests that fire. *)
Lemma collision_no_save (s : State) :
  inBody s = false -> inStick s = false ->
  inGlove s = false -> inButterfly s = false ->
  reports (snd (collisionDetection s))
  = (if pastGoalLine s
     then [if inGoalMouth s then (false, None) else (true, Some miss)]
     else [])
    ++ (if outOfCanvas s then [(true, Some miss)] else []).
Proof.
  intros Hb Hs Hg Hf. unfold collisionDetection, goalLineCheck.
  rewrite Hb, Hs, Hg, Hf.
  destruct (pastGoalLine s); [destruct (inGoalMouth s)|];
    unfold canvasEdgeCheck, outOfCanvas, endRound; frame_fields;
    fold (outOfCanvas s); destruct (outOfCanvas s); reflexivity.
Qed.

(** A frame reports two outcomes exactly when no save zone holds the puck
    and the puck is both past the goal line and off the canvas. *)
Lemma collision_double_report (s : State) :
  (List.length (reports (snd (collisionDetection s))) <= 2)%nat
  /\ (List.length (reports (snd (collisionDetection s))) = 2%nat
      <-> inBody s = false /\ inStick s = false /\ inGlove s = false
          /\ inButterfly s = false
          /\ pastGoalLine s = true /\ outOfCanvas s = true).
Proof.
  destruct (inBody s) eqn:Hb; [|destruct (inStick s) eqn:Hs;
    [|destruct (inGlove s) eqn:Hg; [|destruct (inButterfly s) eqn:Hf]]].
  5: { rewrite (collision_no_save s Hb Hs Hg Hf).
       destruct (pastGoalLine s), (outOfCanvas s); cbn;
         (split; [lia|]); split; intros; try discriminate; intuition congruence. }
  all: unfold collisionDetection; rewrite ?Hb, ?Hs, ?Hg, ?Hf; cbn;
    (split; [lia|]); split; intros; try discriminate;
    intuition congruence.
Qed.

(** C4.  When no save zone holds the puck and the puck is past the goal
    line ([x < GOAL_X + 5]), the goal-line test reports a goal if and only
    if [GOAL_TOP < y < GOAL_BOTTOM], strictly, and a miss otherwise; a goal
    is reported by no other test; at [y = GOAL_TOP] and at
    [y = GOAL_BOTTOM] the frame reports a miss and no goal. *)
Theorem goal_line_strict_interior (s : State)
  (Hnosave : inBody s = false /\ inStick s = false
             /\ inGlove s = false /\ inButterfly s = false)
  (Hcross : x (puckPos s) < GOAL_X + 5) :
  let out := reports (snd (collisionDetection s)) in
  (hd_error out = Some (false, None)
   <-> GOAL_TOP < y (puckPos s) < GOAL_BOTTOM)
  /\ (hd_error out = Some (true, Some miss)
      <-> ~ (GOAL_TOP < y (puckPos s) < GOAL_BOTTOM))
  /\ (In (false, None) out <-> GOAL_TOP < y (puckPos s) < GOAL_BOTTOM)
  /\ (y (puckPos s) = GOAL_TOP \/ y (puckPos s) = GOAL_BOTTOM ->
      hd_error out = Some (true, Some miss) /\ ~ In (false, None) out).
Proof.
  destruct Hnosave as (Hb & Hs & Hg & Hf). intros out. subst out.
  rewrite (collision_no_save s Hb Hs Hg Hf).
  assert (Hp : pastGoalLine s = true) by (apply Rltb_true; exact Hcross).
  rewrite Hp. pose proof (inGoalMouth_true s) as Hm.
  destruct (inGoalMouth s).
  - assert (Hin : GOAL_TOP < y (puckPos s) < GOAL_BOTTOM)
      by (apply Hm; reflexivity).
    cbn [app hd_error].
    split; [tauto|]. split; [|split].
    + split; [intros H; discriminate H | tauto].
    + split; [tauto | intros _; left; reflexivity].
    + intros [E|E]; exfalso; lra.
  - assert (Hout : ~ (GOAL_TOP < y (puckPos s) < GOAL_BOTTOM))
      by (intros H; apply Hm in H; discriminate H).
    assert (Hno : ~ In (false, @None SaveType)
                    ([(true, Some miss)]
                     ++ (if outOfCanvas s then [(true, Some miss)] else []))).
    { destruct (outOfCanvas s); cbn; intros H;
        repeat (destruct H as [H|H]; [discriminate H|]); exact H. }
    cbn [app hd_error]. cbn [app] in Hno.
    split; [|split; [|split]].
    + split; [intros H; discriminate H | tauto].
    + tauto.
    + tauto.
    + intros _. split; [reflexivity | exact Hno].
Qed.

Lemma goal_line_strict_interior_witness :
  hd_error (reports (snd (collisionDetection onThePost)))
  = Some (true, Some miss)
  /\ ~ In (false, None) (reports (snd (collisionDetection onThePost))).
Proof.
  apply (goal_line_strict_interior onThePost).
  - unfold onThePost, inFlight. unfold_frame. eval_frame. tauto.
  - unfold onThePost, inFlight, GOAL_X. frame_fields. lra.
  - left. reflexivity.
Defined.

(** ** One frame, two reports *)

(** C1 (the code departs from it).  In the magnet round, with the puck one
    frame away from the top-left corner of the canvas, a single invocation
    of the frame step calls [onRoundEnd] twice (the goal-line test and the
    canvas-edge test both fire), and still draws and requests a frame after
    the round-ended flag is set. *)
Theorem update_reports_twice_in_one_frame :
  exists s',
    update (roundConfig 5) midEnv cornerExit
    = Some (s', [OnRoundEnd true (Some miss); OnRoundEnd true (Some miss);
                 Draw; RequestFrame])
    /\ roundEnded s' = true
    /\ puckPos s' = {| x := 50 + -10; y := 8 + -12 |}.
Proof.
  eexists. split; [|split].
  - unfold_frame. unfold cornerExit, inFlight, midEnv, roundConfig.
    frame_fields. rewrite (clampX_id 100), (clampY_id 300) by lra.
    eval_frame. cbn [app]. reflexivity.
  - reflexivity.
  - reflexivity.
Qed.


(** ** The stance interpolation *)

Lemma stanceStep_target (sp : StickPosition) (lerp : R) :
  stanceStep sp lerp = lerp + (targetStance sp - lerp) * 0.15.
Proof. destruct sp; reflexivity. Qed.

Lemma targetStance_cases (sp : StickPosition) :
  (sp = DOWN /\ targetStance sp = 1) \/ (sp <> DOWN /\ targetStance sp = 0).
Proof.
  destruct sp; [right|right|left]; (split; [congruence|]);
    unfold targetStance; lra.
Qed.

Lemma stance_down_closed_form (N : nat) :
  Nat.iter N (stanceStep DOWN) 0 = 1 - (1 - 0.15) ^ N.
Proof.
  induction N as [|N IH].
  - cbn. lra.
  - rewrite Nat.iter_succ, IH. unfold stanceStep. cbn [pow]. lra.
Qed.

(** ** What each phase of the frame step leaves alone *)

Lemma endRound_fields (ok : bool) (st : option SaveType) (s : State) :
  let s' := fst (endRound ok st s) in
  goaliePos s' = goaliePos s /\ stickPos s' = stickPos s
  /\ stanceLerp s' = stanceLerp s /\ shooterPos s' = shooterPos s
  /\ puckPos s' = puckPos s /\ puckVel s' = puckVel s
  /\ puckTrail s' = puckTrail s /\ hasShot s' = hasShot s
  /\ windUpStart s' = windUpStart s /\ roundEnded s' = true.
Proof. cbn. repeat split. Qed.

Lemma collisionDetection_fields (s : State) :
  let s' := fst (collisionDetection s) in
  goaliePos s' = goaliePos s /\ stickPos s' = stickPos s
  /\ stanceLerp s' = stanceLerp s /\ shooterPos s' = shooterPos s
  /\ puckPos s' = puckPos s /\ puckVel s' = puckVel s
  /\ puckTrail s' = puckTrail s /\ hasShot s' = hasShot s
  /\ windUpStart s' = windUpStart s.
Proof.
  unfold collisionDetection, goalLineCheck, canvasEdgeCheck.
  repeat first
    [ progress cbn
    | match goal with
      | |- context [if ?b then _ else _] => destruct b
      end ];
  repeat split.
Qed.

Lemma takeShot_fields (cfg : RoundConfig) (rnd : R) (s s' : State) :
  takeShot cfg rnd s = Some s' ->
  goaliePos s' = goaliePos s /\ stickPos s' = stickPos s
  /\ stanceLerp s' = stanceLerp s /\ shooterPos s' = shooterPos s
  /\ puckPos s' = puckPos s /\ puckTrail s' = puckTrail s
  /\ windUpStart s' = windUpStart s /\ roundEnded s' = roundEnded s
  /\ hasShot s' = true.
Proof.
  unfold takeShot. destruct (Reqb _ _); [discriminate|].
  intros H. inversion H. cbn. repeat split.
Qed.

Lemma shooterAI_fields (cfg : RoundConfig) (e : Env) (s s' : State) :
  shooterAI cfg e s = Some s' ->
  goaliePos s' = goaliePos s /\ stickPos s' = stickPos s
  /\ stanceLerp s' = stanceLerp s
  /\ shooterPos s' = shooterAdvance cfg e s
  /\ puckPos s' = {| x := x (shooterAdvance cfg e s) - 20;
                     y := y (shooterAdvance cfg e s) |}
  /\ puckTrail s' = puckTrail s /\ roundEnded s' = roundEnded s.
Proof.
  unfold shooterAI.
  destruct (Rltb _ _); [|intros H; inversion H; cbn; repeat split].
  destruct (isSlapShot cfg && negb (truthy (windUpStart s)));
    [intros H; inversion H; cbn; repeat split|].
  destruct (isSlapShot cfg && truthy (windUpStart s)).
  - destruct (windUpStart s) as [t0|];
      [destruct (500 <? now_shot e - t0)%Z|];
      try (intros H; inversion H; cbn; repeat split; fail).
    intros H. apply takeShot_fields in H. cbn in H. tauto.
  - intros H. apply takeShot_fields in H. cbn in H. tauto.
Qed.

Lemma puckPhysics_fields (cfg : RoundConfig) (e : Env) (s s' : State) :
  puckPhysics cfg e s = Some s' ->
  goaliePos s' = goaliePos s /\ stickPos s' = stickPos s
  /\ stanceLerp s' = stanceLerp s /\ shooterPos s' = shooterPos s
  /\ hasShot s' = hasShot s /\ windUpStart s' = windUpStart s
  /\ roundEnded s' = roundEnded s.
Proof.
  unfold puckPhysics. destruct (magnetPull _ _ _ _); [|discriminate].
  intros H. inversion H. cbn. repeat split.
Qed.

(** An open frame is the composition of its phases. *)
Lemma update_open (cfg : RoundConfig) (e : Env) (s s' : State)
  (ev : list Event) :
  roundEnded s = false ->
  update cfg e s = Some (s', ev) ->
  exists s2,
    (if hasShot s then puckPhysics cfg e (animateAndMove cfg s)
     else shooterAI cfg e (animateAndMove cfg s)) = Some s2
    /\ (s', ev) = collisionDetection s2.
Proof.
  intros Hopen Hup. unfold update in Hup. rewrite Hopen in Hup.
  cbn [animateAndMove hasShot] in Hup. fold (animateAndMove cfg s) in Hup.
  destruct (hasShot s); cbn [negb] in Hup.
  - destruct (puckPhysics cfg e (animateAndMove cfg s)) as [s2|];
      [|discriminate Hup].
    exists s2. split; [reflexivity|]. inversion Hup. reflexivity.
  - destruct (shooterAI cfg e (animateAndMove cfg s)) as [s2|];
      [|discriminate Hup].
    exists s2. split; [reflexivity|]. inversion Hup. reflexivity.
Qed.

(** ** The stance interpolation inside the frame step *)

(** The frame step applies [stanceStep] once, whenever the round is open,
    and never writes the stick selector. *)
Lemma update_stanceLerp (cfg : RoundConfig) (e : Env) (s s' : State)
  (ev : list Event) :
  roundEnded s = false ->
  update cfg e s = Some (s', ev) ->
  stanceLerp s' = stanceStep (stickPos s) (stanceLerp s)
  /\ stickPos s' = stickPos s.
Proof.
  intros Hopen Hup.
  destruct (update_open cfg e s s' ev Hopen Hup) as (s2 & H3 & H4).
  pose proof (collisionDetection_fields s2) as Hc. rewrite <- H4 in Hc.
  cbn [fst] in Hc. destruct Hc as (_ & Hst & Hl & _).
  rewrite Hst, Hl.
  destruct (hasShot s).
  - apply puckPhysics_fields in H3. destruct H3 as (_ & -> & -> & _).
    split; reflexivity.
  - apply shooterAI_fields in H3. destruct H3 as (_ & -> & -> & _).
    split; reflexivity.
Qed.

(** ** The magnet cone *)

Lemma atan_lt_iff (u v : R) : atan u < atan v <-> u < v.
Proof.
  split; [|apply atan_increasing].
  intros H. destruct (Rlt_le_dec u v) as [Hlt|Hle]; [exact Hlt|].
  destruct Hle as [Hlt|Heq].
  - apply atan_increasing in Hlt. lra.
  - subst. lra.
Qed.

Lemma atan_m1 : atan (-1) = - (PI / 4).
Proof.
  replace (-1) with (- (1)) by lra. rewrite atan_opp, atan_1. reflexivity.
Qed.

(** [atan2 b a] lies strictly inside the +-135 degree cone unless the
    vector [(a, b)] points left within 45 degrees of the horizontal. *)
Lemma atan2_cone (b a : R) :
  - PI * 0.75 < atan2 b a < PI * 0.75 <-> ~ (a < 0 /\ Rabs b <= - a).
Proof.
  pose proof PI_RGT_0 as Hpi. unfold atan2.
  destruct (Rlt_dec 0 a) as [Ha|Ha].
  - rewrite (proj2 (Rltb_true 0 a) Ha).
    pose proof (atan_bound (b / a)). split; [intros _ [H0 _]; lra|intros _; lra].
  - rewrite (proj2 (Rltb_false 0 a)) by lra.
    destruct (Rlt_dec a 0) as [Hn|Hn].
    + rewrite (proj2 (Rltb_true a 0) Hn).
      assert (Hb : b = b / a * a) by (field; lra).
      pose proof (atan_bound (b / a)) as Hbd.
      destruct (Rlt_dec b 0) as [Hb0|Hb0].
      * rewrite (proj2 (Rltb_true b 0) Hb0).
        rewrite (Rabs_left b Hb0).
        pose proof (atan_lt_iff 1 (b / a)) as Hm. rewrite atan_1 in Hm.
        split.
        -- intros [Hlo _] [_ Hle].
           assert (1 < b / a) by (apply Hm; lra). nra.
        -- intros Hnot. split; [|lra].
           assert (1 < b / a).
           { destruct (Rlt_le_dec 1 (b / a)) as [H1|H1]; [exact H1|].
             exfalso. apply Hnot. split; [exact Hn|]. nra. }
           apply Hm in H. lra.
      * rewrite (proj2 (Rltb_false b 0)) by lra.
        rewrite (Rabs_right b) by lra.
        pose proof (atan_lt_iff (b / a) (-1)) as Hm. rewrite atan_m1 in Hm.
        split.
        -- intros [_ Hhi] [_ Hle].
           assert (b / a < -1) by (apply Hm; lra). nra.
        -- intros Hnot. split; [lra|].
           assert (b / a < -1).
           { destruct (Rlt_le_dec (b / a) (-1)) as [H1|H1]; [exact H1|].
             exfalso. apply Hnot. split; [exact Hn|]. nra. }
           apply Hm in H. lra.
    + rewrite (proj2 (Rltb_false a 0)) by lra.
      split; [intros _ [H0 _]; lra|intros _].
      destruct (Rlt_dec 0 b) as [Hb|Hb].
      * rewrite (proj2 (Rltb_true 0 b) Hb). lra.
      * rewrite (proj2 (Rltb_false 0 b)) by lra.
        destruct (Rlt_dec b 0) as [Hb'|Hb'].
        -- rewrite (proj2 (Rltb_true b 0) Hb'). lra.
        -- rewrite (proj2 (Rltb_false b 0)) by lra. lra.
Qed.

(** ** Unit vectors *)

Lemma vector2_eq (a b : Vector2) : x a = x b -> y a = y b -> a = b.
Proof. destruct a, b. cbn. intros -> ->. reflexivity. Qed.

Lemma hypot_apart (a b : Vector2) :
  a <> b -> hypot (x a - x b) (y a - y b) <> 0.
Proof.
  intros Hne H0. apply hypot_eq_0 in H0. destruct H0 as [Hx Hy].
  apply Hne. apply vector2_eq; lra.
Qed.

(** A difference vector divided by its length and scaled by [k] has length
    [|k|]. *)
Lemma hypot_unit_scaled (dx dy k : R) :
  hypot dx dy <> 0 ->
  hypot (dx / hypot dx dy * k) (dy / hypot dx dy * k) = Rabs k.
Proof.
  intros Hd. pose proof (hypot_sqr dx dy) as Hs.
  unfold hypot at 1.
  replace (dx / hypot dx dy * k * (dx / hypot dx dy * k)
           + dy / hypot dx dy * k * (dy / hypot dx dy * k))
    with (Rsqr k).
  - apply sqrt_Rsqr_abs.
  - unfold Rsqr.
    replace (dx / hypot dx dy * k * (dx / hypot dx dy * k)
             + dy / hypot dx dy * k * (dy / hypot dx dy * k))
      with ((dx * dx + dy * dy) / (hypot dx dy * hypot dx dy) * (k * k))
      by (field; exact Hd).
    rewrite Hs. field. rewrite <- Hs. nra.
Qed.

(** ** The magnet *)

Lemma magnetInRange_true (g p : Vector2) :
  magnetInRange g p = true
  <-> hypot (x g - x p) (y g - y p) < 100
      /\ - PI * 0.75 < atan2 (y g - y p) (x g - x p) < PI * 0.75.
Proof.
  unfold magnetInRange.
  rewrite !andb_true_iff, !Rltb_true, Rgtb_true. tauto.
Qed.

(** C7.  On a physics frame (puck released, round open) the magnet adds to
    the puck velocity twice the unit vector from the puck to the goalie if
    and only if the magnet modifier is on, the puck is less than 100 from
    the goalie, and the direction from the puck to the goalie is strictly
    inside the +-135 degree cone; otherwise the magnet leaves the velocity
    as it was.  With the modifier off the new velocity is the old one plus
    the curve drift, whatever the goalie position. *)
Theorem magnet_impulse_iff (cfg : RoundConfig) (e : Env) (s : State)
  (Hshot : hasShot s = true) (Hopen : roundEnded s = false)
  (Hapart : hasMagnet cfg = true -> goalieMovement cfg s <> puckPos s) :
  let g := goalieMovement cfg s in
  let p := puckPos s in
  let v := puckVel s in
  let dx := x g - x p in
  let dy := y g - y p in
  let dist := hypot dx dy in
  let applies :=
    hasMagnet cfg = true /\ dist < 100
    /\ - PI * 0.75 < atan2 dy dx < PI * 0.75 in
  exists s' ev v1,
    update cfg e s = Some (s', ev)
    /\ magnetPull cfg g p v = Some v1
    /\ puckVel s' = curveDrift cfg e v1
    /\ (applies ->
        v1 = {| x := x v + dx / dist * 2; y := y v + dy / dist * 2 |}
        /\ hypot (x v1 - x v) (y v1 - y v) = 2)
    /\ (~ applies -> v1 = v)
    /\ (v1 <> v <-> applies)
    /\ (hasMagnet cfg = false -> puckVel s' = curveDrift cfg e (puckVel s)).
Proof.
  intros g p v dx dy dist applies.
  assert (Hpull : exists v1, magnetPull cfg g p v = Some v1
            /\ (applies ->
                v1 = {| x := x v + dx / dist * 2; y := y v + dy / dist * 2 |}
                /\ hypot (x v1 - x v) (y v1 - y v) = 2)
            /\ (~ applies -> v1 = v)
            /\ (hasMagnet cfg = false -> v1 = v)).
  { unfold magnetPull. fold dx dy dist.
    destruct (hasMagnet cfg) eqn:Hm.
    - pose proof (magnetInRange_true g p) as Hr. fold dx dy dist in Hr.
      destruct (magnetInRange g p).
      + assert (Hd : dist <> 0) by (apply hypot_apart, Hapart; reflexivity).
        rewrite (proj2 (Reqb_false dist 0) Hd).
        eexists. split; [reflexivity|]. split; [|split].
        * intros _. split; [reflexivity|]. cbn [x y].
          replace (x v + dx / dist * 2 - x v) with (dx / dist * 2) by ring.
          replace (y v + dy / dist * 2 - y v) with (dy / dist * 2) by ring.
          unfold dist. rewrite hypot_unit_scaled by exact Hd.
          apply Rabs_right. lra.
        * intros Hnot. exfalso. apply Hnot. unfold applies.
          split; [reflexivity|]. apply Hr. reflexivity.
        * intros H. discriminate H.
      + exists v. split; [reflexivity|]. split; [|split].
        * intros (_ & Hin). apply Hr in Hin. discriminate Hin.
        * reflexivity.
        * reflexivity.
    - exists v. split; [reflexivity|]. split; [|split].
      + intros (H & _). discriminate H.
      + reflexivity.
      + reflexivity. }
  destruct Hpull as (v1 & Hv1 & Hyes & Hno & Hoff).
  assert (Hphys : puckPhysics cfg e (animateAndMove cfg s)
                  = Some (mkState g (stickPos s)
                            (stanceStep (stickPos s) (stanceLerp s))
                            (shooterPos s)
                            {| x := x p + x v1; y := y p + y v1 |}
                            (curveDrift cfg e v1)
                            (pushTrail (puckTrail s)
                               {| x := x p + x v1; y := y p + y v1 |})
                            true false (keysPressed s) (windUpStart s)
                            (isDragging s) (frameCount s + 1)%Z)).
  { unfold puckPhysics, animateAndMove.
    cbn [goaliePos puckPos puckVel stickPos stanceLerp shooterPos puckTrail
         hasShot roundEnded keysPressed windUpStart isDragging frameCount].
    fold g p v. rewrite Hv1, Hshot, Hopen. reflexivity. }
  destruct (collisionDetection
              (mkState g (stickPos s)
                 (stanceStep (stickPos s) (stanceLerp s)) (shooterPos s)
                 {| x := x p + x v1; y := y p + y v1 |}
                 (curveDrift cfg e v1)
                 (pushTrail (puckTrail s)
                    {| x := x p + x v1; y := y p + y v1 |})
                 true false (keysPressed s) (windUpStart s)
                 (isDragging s) (frameCount s + 1)%Z)) as [s' ev] eqn:Hcol.
  exists s', ev, v1.
  assert (Hvel : puckVel s' = curveDrift cfg e v1).
  { pose proof (collisionDetection_fields
                  (mkState g (stickPos s)
                     (stanceStep (stickPos s) (stanceLerp s)) (shooterPos s)
                     {| x := x p + x v1; y := y p + y v1 |}
                     (curveDrift cfg e v1)
                     (pushTrail (puckTrail s)
                        {| x := x p + x v1; y := y p + y v1 |})
                     true false (keysPressed s) (windUpStart s)
                     (isDragging s) (frameCount s + 1)%Z)) as Hf.
    rewrite Hcol in Hf. cbn [fst puckVel] in Hf. tauto. }
  split; [|split; [exact Hv1|split; [exact Hvel|split;
    [exact Hyes|split; [exact Hno|split]]]]].
  - unfold update. rewrite Hopen.
    replace (negb (hasShot (animateAndMove cfg s))) with false
      by (cbn [animateAndMove hasShot]; rewrite Hshot; reflexivity).
    rewrite Hphys, Hcol. reflexivity.
  - split.
    + intros Hne. destruct (hasMagnet cfg) eqn:Hm.
      * pose proof (magnetInRange_true g p) as Hr. fold dx dy dist in Hr.
        destruct (magnetInRange g p).
        -- unfold applies. split; [reflexivity|]. apply Hr. reflexivity.
        -- exfalso. apply Hne, Hno. intros (_ & Hin).
           apply Hr in Hin. discriminate Hin.
      * exfalso. apply Hne, Hoff. reflexivity.
    + intros Ha Heq. destruct (Hyes Ha) as (_ & Hlen).
      rewrite Heq in Hlen.
      replace (x v - x v) with 0 in Hlen by ring.
      replace (y v - y v) with 0 in Hlen by ring.
      assert (H0 : hypot 0 0 = 0) by (apply hypot_eq_0; split; reflexivity).
      lra.
  - intros Hm. rewrite Hvel, (Hoff Hm). reflexivity.
Qed.

Lemma goalieMovement_idle (cfg : RoundConfig) (g p v : Vector2) :
  50 <= x g <= 140 -> 50 <= y g <= 550 ->
  goalieMovement cfg (inFlight g p v) = g.
Proof.
  intros Hx Hy. unfold goalieMovement, inFlight. frame_fields.
  rewrite clampX_id, clampY_id by assumption. destruct g; reflexivity.
Qed.

Lemma magnet_impulse_iff_witness :
  exists s' ev,
    update (roundConfig 5) midEnv besideTheGoalie = Some (s', ev)
    /\ puckVel s' <> puckVel besideTheGoalie.
Proof.
  assert (Hg : goalieMovement (roundConfig 5) besideTheGoalie
               = {| x := 100; y := 300 |})
    by (apply goalieMovement_idle; cbn [x y]; lra).
  assert (Hshot : hasShot besideTheGoalie = true) by reflexivity.
  assert (Hopen : roundEnded besideTheGoalie = false) by reflexivity.
  assert (Hapart : hasMagnet (roundConfig 5) = true ->
                   goalieMovement (roundConfig 5) besideTheGoalie
                   <> puckPos besideTheGoalie).
  { intros _. rewrite Hg. intros H. apply (f_equal x) in H.
    cbn [x puckPos besideTheGoalie inFlight] in H. lra. }
  destruct (magnet_impulse_iff (roundConfig 5) midEnv besideTheGoalie
              Hshot Hopen Hapart)
    as (s' & ev & v1 & Hup & _ & Hvel & _ & _ & Hiff & _).
  exists s', ev. split; [exact Hup|].
  rewrite Hvel. unfold curveDrift, roundConfig.
  cbn [curveFactor Z.eqb Pos.eqb]. Rcompare.
  apply Hiff. rewrite Hg.
  cbn [x y puckPos besideTheGoalie inFlight hasMagnet roundConfig Z.eqb
       Pos.eqb].
  split; [reflexivity|]. split.
  - apply hypot_lt; lra.
  - apply atan2_cone. intros [H _]. lra.
Defined.

(** ** Where the frame step divides *)

Lemma takeShot_none (cfg : RoundConfig) (rnd : R) (s : State) :
  takeShot cfg rnd s = None
  <-> puckPos s = {| x := GOAL_X; y := finalTargetY cfg rnd |}.
Proof.
  unfold takeShot.
  destruct (Reqb _ _) eqn:Hz.
  - apply Reqb_true, hypot_eq_0 in Hz. destruct Hz as [Hx Hy].
    split; [intros _|reflexivity]. apply vector2_eq; cbn [x y]; lra.
  - apply Reqb_false in Hz. split; [discriminate|].
    intros Heq. exfalso. apply Hz. rewrite Heq. cbn [x y].
    apply hypot_eq_0. split; ring.
Qed.

Lemma magnetInRange_same (p : Vector2) : magnetInRange p p = true.
Proof.
  apply magnetInRange_true.
  replace (x p - x p) with 0 by ring. replace (y p - y p) with 0 by ring.
  split.
  - rewrite (proj2 (hypot_eq_0 0 0)) by (split; reflexivity). lra.
  - apply atan2_cone. intros [H _]. lra.
Qed.

Lemma magnetPull_none (cfg : RoundConfig) (g p v : Vector2) :
  magnetPull cfg g p v = None <-> hasMagnet cfg = true /\ p = g.
Proof.
  unfold magnetPull. destruct (hasMagnet cfg).
  - destruct (magnetInRange g p) eqn:Hr.
    + destruct (Reqb _ _) eqn:Hz.
      * apply Reqb_true, hypot_eq_0 in Hz. destruct Hz as [Hx Hy].
        split; [intros _|reflexivity]. split; [reflexivity|].
        apply vector2_eq; lra.
      * apply Reqb_false in Hz. split; [discriminate|].
        intros [_ Heq]. exfalso. apply Hz. rewrite Heq.
        apply hypot_eq_0. split; ring.
    + split; [discriminate|]. intros [_ Heq]. subst g.
      rewrite magnetInRange_same in Hr. discriminate Hr.
  - split; [discriminate|]. intros [H _]. discriminate H.
Qed.

Lemma shooterAI_none (cfg : RoundConfig) (e : Env) (s : State) :
  shooterAI cfg e s = None ->
  {| x := x (shooterAdvance cfg e s) - 20; y := y (shooterAdvance cfg e s) |}
  = {| x := GOAL_X; y := finalTargetY cfg (rnd_target e) |}.
Proof.
  unfold shooterAI.
  destruct (Rltb _ _); [|discriminate].
  destruct (isSlapShot cfg && negb (truthy (windUpStart s))); [discriminate|].
  destruct (isSlapShot cfg && truthy (windUpStart s)).
  - destruct (windUpStart s) as [t0|]; [|discriminate].
    destruct (500 <? now_shot e - t0)%Z; [|discriminate].
    intros H. apply takeShot_none in H. exact H.
  - intros H. apply takeShot_none in H. exact H.
Qed.

(** A frame fails to return a state only with the puck on the stick exactly
    at the target point (at release) or exactly at the goalie centre (in
    flight, magnet on). *)
Lemma update_none_cases (cfg : RoundConfig) (e : Env) (s : State) :
  update cfg e s = None ->
  (hasShot s = false
   /\ {| x := x (shooterAdvance cfg e (animateAndMove cfg s)) - 20;
         y := y (shooterAdvance cfg e (animateAndMove cfg s)) |}
      = {| x := GOAL_X; y := finalTargetY cfg (rnd_target e) |})
  \/ (hasShot s = true /\ hasMagnet cfg = true
      /\ puckPos s = goalieMovement cfg s).
Proof.
  unfold update. destruct (roundEnded s); [discriminate|].
  cbn [animateAndMove hasShot]. fold (animateAndMove cfg s).
  destruct (hasShot s); cbn [negb].
  - intros H. right. split; [reflexivity|].
    unfold puckPhysics in H.
    destruct (magnetPull cfg (goaliePos (animateAndMove cfg s))
                (puckPos (animateAndMove cfg s))
                (puckVel (animateAndMove cfg s))) eqn:Hp;
      [discriminate H|].
    apply magnetPull_none in Hp. exact Hp.
  - intros H. left. split; [reflexivity|].
    destruct (shooterAI cfg e (animateAndMove cfg s)) eqn:Hs;
      [discriminate H|].
    apply shooterAI_none. exact Hs.
Qed.

(** C10.  [takeShot] and the magnet divide by the distance between the puck
    and, respectively, the target point and the goalie.  When the two points
    differ the distance is strictly positive and the computation returns a
    value; it fails to (the [0 / 0] case) only when the puck is exactly at
    the target point, respectively exactly at the goalie centre; and a
    frame fails to return a state only from such a position. *)
Theorem division_only_fails_at_coincidence
  (cfg : RoundConfig) (e : Env) (rnd : R) (s : State) (g p v : Vector2) :
  let target := {| x := GOAL_X; y := finalTargetY cfg rnd |} in
  (puckPos s <> target ->
   0 < hypot (x target - x (puckPos s)) (y target - y (puckPos s))
   /\ exists s', takeShot cfg rnd s = Some s')
  /\ (takeShot cfg rnd s = None -> puckPos s = target)
  /\ (p <> g ->
      0 < hypot (x g - x p) (y g - y p)
      /\ exists v1, magnetPull cfg g p v = Some v1)
  /\ (magnetPull cfg g p v = None -> p = g)
  /\ (update cfg e s = None ->
      (hasShot s = false
       /\ {| x := x (shooterAdvance cfg e (animateAndMove cfg s)) - 20;
             y := y (shooterAdvance cfg e (animateAndMove cfg s)) |}
          = {| x := GOAL_X; y := finalTargetY cfg (rnd_target e) |})
      \/ (hasShot s = true /\ hasMagnet cfg = true
          /\ puckPos s = goalieMovement cfg s)).
Proof.
  intros target. split; [|split; [|split; [|split]]].
  - intros Hne. split.
    + assert (H : hypot (x target - x (puckPos s)) (y target - y (puckPos s))
                  <> 0).
      { apply hypot_apart. intros Heq. apply Hne. symmetry. exact Heq. }
      pose proof (hypot_nonneg (x target - x (puckPos s))
                    (y target - y (puckPos s))). lra.
    + destruct (takeShot cfg rnd s) as [s'|] eqn:Ht.
      * exists s'. reflexivity.
      * exfalso. apply Hne. apply takeShot_none. exact Ht.
  - apply takeShot_none.
  - intros Hne. split.
    + assert (H : hypot (x g - x p) (y g - y p) <> 0).
      { apply hypot_apart. intros Heq. apply Hne. symmetry. exact Heq. }
      pose proof (hypot_nonneg (x g - x p) (y g - y p)). lra.
    + destruct (magnetPull cfg g p v) as [v1|] eqn:Hp.
      * exists v1. reflexivity.
      * exfalso. apply Hne. apply magnetPull_none in Hp. tauto.
  - intros H. apply magnetPull_none in H. tauto.
  - apply update_none_cases.
Qed.

Lemma division_only_fails_at_coincidence_witness :
  (exists s', takeShot (roundConfig 1) 0.5 carrying = Some s')
  /\ (exists v1,
        magnetPull (roundConfig 5) {| x := 100; y := 300 |}
          {| x := 60; y := 250 |} {| x := -13; y := 2 |} = Some v1).
Proof.
  destruct (division_only_fails_at_coincidence (roundConfig 1) midEnv 0.5
              carrying {| x := 100; y := 300 |} {| x := 60; y := 250 |}
              {| x := -13; y := 2 |}) as (Ht & _).
  destruct (division_only_fails_at_coincidence (roundConfig 5) midEnv 0.5
              carrying {| x := 100; y := 300 |} {| x := 60; y := 250 |}
              {| x := -13; y := 2 |}) as (_ & _ & Hm & _).
  split.
  - apply Ht. intros H. apply (f_equal x) in H.
    cbn [x puckPos carrying] in H. unfold GOAL_X in H. lra.
  - apply Hm. intros H. apply (f_equal x) in H. cbn [x] in H. lra.
Defined.

(** ** Release *)

Lemma finalTargetY_smart (cfg : RoundConfig) (rnd : R) :
  0.5 < aiIntelligence cfg ->
  finalTargetY cfg rnd
  = (GOAL_TOP + GOAL_BOTTOM) / 2
    + ((if Rgtb rnd 0.5 then GOAL_TOP + 15 else GOAL_BOTTOM - 15)
       - (GOAL_TOP + GOAL_BOTTOM) / 2) * aiIntelligence cfg.
Proof.
  intros H. unfold finalTargetY.
  rewrite (proj2 (Rgtb_true (aiIntelligence cfg) 0.5) H). reflexivity.
Qed.

Lemma finalTargetY_scatter (cfg : RoundConfig) (rnd : R) :
  aiIntelligence cfg <= 0.5 ->
  finalTargetY cfg rnd = (GOAL_TOP + GOAL_BOTTOM) / 2 + (rnd * 100 - 50).
Proof.
  intros H. unfold finalTargetY.
  rewrite (proj2 (Rgtb_false (aiIntelligence cfg) 0.5) H). reflexivity.
Qed.

(** C3 as stated fails: in rounds 1 and 4 (intelligence 0.2 and about 0.47,
    both in [0.2, 1.0]) the same random draw 0.9 gives the same target, 40
    below the centre, so the offset is no multiple [k * intelligence] with
    one [k]; and at the target point itself [takeShot] has no velocity to
    give. *)
Lemma takeShot_bias_not_proportional :
  0.2 <= aiIntelligence (roundConfig 1) <= 1.0
  /\ 0.2 <= aiIntelligence (roundConfig 4) <= 1.0
  /\ finalTargetY (roundConfig 1) 0.9 = 340
  /\ finalTargetY (roundConfig 4) 0.9 = 340
  /\ ~ (exists k : R,
          finalTargetY (roundConfig 1) 0.9 - (GOAL_TOP + GOAL_BOTTOM) / 2
          = k * aiIntelligence (roundConfig 1)
          /\ finalTargetY (roundConfig 4) 0.9 - (GOAL_TOP + GOAL_BOTTOM) / 2
             = k * aiIntelligence (roundConfig 4))
  /\ takeShot (roundConfig 1) 0.5 atTheTarget = None.
Proof.
  assert (H1 : aiIntelligence (roundConfig 1) = 0.2)
    by (unfold roundConfig; cbn [aiIntelligence]; lra).
  assert (H4 : aiIntelligence (roundConfig 4) = 0.2 + 3 / 9 * 0.8)
    by (unfold roundConfig; cbn [aiIntelligence]; lra).
  assert (T1 : finalTargetY (roundConfig 1) 0.9 = 340).
  { rewrite finalTargetY_scatter by lra. unfold GOAL_TOP, GOAL_BOTTOM. lra. }
  assert (T4 : finalTargetY (roundConfig 4) 0.9 = 340).
  { rewrite finalTargetY_scatter by lra. unfold GOAL_TOP, GOAL_BOTTOM. lra. }
  split; [lra|]. split; [lra|]. split; [exact T1|]. split; [exact T4|].
  split.
  - intros (k & E1 & E4). rewrite T1, H1 in E1. rewrite T4, H4 in E4.
    unfold GOAL_TOP, GOAL_BOTTOM in *. lra.
  - apply takeShot_none. unfold atTheTarget, inFlight. cbn [puckPos].
    rewrite finalTargetY_scatter by lra.
    unfold GOAL_X, GOAL_TOP, GOAL_BOTTOM. apply vector2_eq; cbn [x y]; lra.
Qed.

(** C3, amended.  From a puck position other than the target point,
    [takeShot] sets the puck velocity to the unit vector from the puck to
    the target point [(GOAL_X, finalTargetY)] scaled by the shot speed, so
    the released puck has speed [|shotSpeed|].  With intelligence above 0.5
    the target y is the centre of the goal mouth moved toward one corner (a
    post, 15 inside) by [intelligence] times the distance 115 from the
    centre to that corner, the upper corner when the draw is above 0.5.
    With intelligence at most 0.5 it is the centre plus [rnd * 100 - 50],
    within 50 of the centre and the same for every such intelligence. *)
Theorem takeShot_velocity_and_target
  (cfg : RoundConfig) (rnd : R) (s : State)
  (Hapart : puckPos s <> {| x := GOAL_X; y := finalTargetY cfg rnd |}) :
  let goalCenter := (GOAL_TOP + GOAL_BOTTOM) / 2 in
  let dx := GOAL_X - x (puckPos s) in
  let dy := finalTargetY cfg rnd - y (puckPos s) in
  let dist := hypot dx dy in
  (exists s',
      takeShot cfg rnd s = Some s'
      /\ hasShot s' = true
      /\ puckPos s' = puckPos s
      /\ puckVel s' = {| x := dx / dist * shotSpeed cfg;
                         y := dy / dist * shotSpeed cfg |}
      /\ hypot (x (puckVel s')) (y (puckVel s')) = Rabs (shotSpeed cfg)
      /\ (0 <= shotSpeed cfg ->
          hypot (x (puckVel s')) (y (puckVel s')) = shotSpeed cfg))
  /\ (0.5 < aiIntelligence cfg ->
      (rnd > 0.5 ->
       finalTargetY cfg rnd
       = goalCenter + (GOAL_TOP + 15 - goalCenter) * aiIntelligence cfg)
      /\ (rnd <= 0.5 ->
          finalTargetY cfg rnd
          = goalCenter + (GOAL_BOTTOM - 15 - goalCenter) * aiIntelligence cfg)
      /\ Rabs (finalTargetY cfg rnd - goalCenter) = 115 * aiIntelligence cfg)
  /\ (aiIntelligence cfg <= 0.5 ->
      finalTargetY cfg rnd = goalCenter + (rnd * 100 - 50)
      /\ (0 <= rnd < 1 -> -50 <= finalTargetY cfg rnd - goalCenter < 50)
      /\ (forall cfg', aiIntelligence cfg' <= 0.5 ->
          finalTargetY cfg' rnd = finalTargetY cfg rnd)).
Proof.
  intros goalCenter dx dy dist.
  assert (Hd : dist <> 0).
  { unfold dist, dx, dy.
    apply (hypot_apart {| x := GOAL_X; y := finalTargetY cfg rnd |}
             (puckPos s)).
    intros Heq. apply Hapart. symmetry. exact Heq. }
  split; [|split].
  - unfold takeShot. fold dx dy dist.
    rewrite (proj2 (Reqb_false dist 0) Hd).
    eexists. split; [reflexivity|]. cbn [hasShot puckPos puckVel x y].
    split; [reflexivity|]. split; [reflexivity|]. split; [reflexivity|].
    assert (Hlen : hypot (dx / dist * shotSpeed cfg)
                     (dy / dist * shotSpeed cfg) = Rabs (shotSpeed cfg))
      by (apply hypot_unit_scaled; exact Hd).
    split; [exact Hlen|].
    intros Hpos. rewrite Hlen. apply Rabs_right. lra.
  - intros Hai. rewrite (finalTargetY_smart cfg rnd Hai). fold goalCenter.
    destruct (Rgtb rnd 0.5) eqn:Hr.
    + apply Rgtb_true in Hr. split; [reflexivity|]. split; [intros; lra|].
      unfold goalCenter, GOAL_TOP, GOAL_BOTTOM.
      rewrite Rabs_left by lra. lra.
    + apply Rgtb_false in Hr. split; [intros; lra|]. split; [reflexivity|].
      unfold goalCenter, GOAL_TOP, GOAL_BOTTOM.
      rewrite Rabs_right by lra. lra.
  - intros Hai. rewrite (finalTargetY_scatter cfg rnd Hai). fold goalCenter.
    split; [reflexivity|]. split; [intros; lra|].
    intros cfg' Hai'. rewrite (finalTargetY_scatter cfg' rnd Hai').
    reflexivity.
Qed.

Lemma takeShot_velocity_and_target_witness :
  exists s',
    takeShot (roundConfig 10) 0.9 carrying = Some s'
    /\ hypot (x (puckVel s')) (y (puckVel s')) = shotSpeed (roundConfig 10).
Proof.
  assert (Hapart : puckPos carrying
                   <> {| x := GOAL_X; y := finalTargetY (roundConfig 10) 0.9 |}).
  { intros H. apply (f_equal x) in H.
    cbn [x puckPos carrying] in H. unfold GOAL_X in H. lra. }
  destruct (takeShot_velocity_and_target (roundConfig 10) 0.9 carrying Hapart)
    as ((s' & Hs & _ & _ & _ & _ & Hspeed) & _).
  exists s'. split; [exact Hs|]. apply Hspeed.
  unfold roundConfig. cbn [shotSpeed Z.eqb Pos.eqb]. lra.
Defined.

(** ** The wind-up *)

Lemma truthy_some (t0 : Z) : t0 <> 0%Z -> truthy (Some t0) = true.
Proof. intros H. cbn. apply negb_true_iff, Z.eqb_neq. exact H. Qed.

Lemma shooterAdvance_winding (cfg : RoundConfig) (e : Env) (s : State) :
  truthy (windUpStart s) = true -> shooterAdvance cfg e s = shooterPos s.
Proof. intros H. unfold shooterAdvance. rewrite H. reflexivity. Qed.

(** During the wind-up the shooter phase moves nothing but the puck (onto
    the stick) and releases under two conditions: the stopped shooter is left
    of this frame's threshold, and more than 500 ms have passed. *)
Lemma shooterAI_winding (cfg : RoundConfig) (e : Env) (s s' : State) (t0 : Z) :
  isSlapShot cfg = true ->
  windUpStart s = Some t0 -> t0 <> 0%Z -> hasShot s = false ->
  shooterAI cfg e s = Some s' ->
  shooterPos s' = shooterPos s
  /\ windUpStart s' = Some t0
  /\ (hasShot s' = true
      <-> x (shooterPos s) < 250 + rnd_threshold e * 100
          /\ (500 < now_shot e - t0)%Z).
Proof.
  intros Hslap Hw Ht0 Hnot. pose proof (truthy_some t0 Ht0) as Htr.
  unfold shooterAI.
  rewrite (shooterAdvance_winding cfg e s) by (rewrite Hw; exact Htr).
  rewrite Hslap, Hw, Htr. cbn [andb negb].
  destruct (Rltb _ _) eqn:Hthr.
  - apply Rltb_true in Hthr.
    destruct (500 <? now_shot e - t0)%Z eqn:Hms.
    + apply Z.ltb_lt in Hms. intros H. apply takeShot_fields in H.
      cbn [shooterPos windUpStart] in H.
      destruct H as (_ & _ & _ & Hsh & _ & _ & Hwu & _ & Hhs).
      rewrite Hsh, Hwu, ?Hw, Hhs. tauto.
    + apply Z.ltb_ge in Hms. intros H. inversion H.
      cbn [shooterPos windUpStart hasShot]. rewrite ?Hw, ?Hnot.
      split; [reflexivity|]. split; [reflexivity|].
      split; [discriminate|]. intros [_ Hlt]. lia.
  - apply Rltb_false in Hthr. intros H. inversion H.
    cbn [shooterPos windUpStart hasShot]. rewrite ?Hw, ?Hnot.
    split; [reflexivity|]. split; [reflexivity|].
    split; [discriminate|]. intros [Hlt _]. lra.
Qed.

(** Once the wind-up has started, no frame moves the shooter or clears the
    wind-up clock. *)
Lemma update_winding_shooter (cfg : RoundConfig) (e : Env) (s s' : State)
  (ev : list Event) :
  truthy (windUpStart s) = true ->
  update cfg e s = Some (s', ev) ->
  shooterPos s' = shooterPos s /\ windUpStart s' = windUpStart s.
Proof.
  intros Htr Hup. destruct (roundEnded s) eqn:Hopen.
  - rewrite (update_after_round_end cfg e s Hopen) in Hup.
    inversion Hup. split; reflexivity.
  - destruct (update_open cfg e s s' ev Hopen Hup) as (s2 & H3 & H4).
    pose proof (collisionDetection_fields s2) as Hc. rewrite <- H4 in Hc.
    cbn [fst] in Hc. destruct Hc as (_ & _ & _ & Hsh & _ & _ & _ & _ & Hwu).
    rewrite Hsh, Hwu. destruct (hasShot s).
    + apply puckPhysics_fields in H3.
      destruct H3 as (_ & _ & _ & -> & _ & -> & _). split; reflexivity.
    + revert H3. unfold shooterAI.
      rewrite (shooterAdvance_winding cfg e (animateAndMove cfg s)) by exact Htr.
      cbn [animateAndMove windUpStart shooterPos]. rewrite Htr.
      rewrite andb_false_r.
      destruct (Rltb _ _);
        [|intros H; inversion H; split; reflexivity].
      destruct (isSlapShot cfg); cbn [andb].
      * destruct (windUpStart s) as [t0|] eqn:Hw; [|discriminate Htr].
        destruct (500 <? now_shot e - t0)%Z;
          [|intros H; inversion H; cbn; rewrite ?Hw; split; reflexivity].
        intros H. apply takeShot_fields in H.
        cbn [shooterPos windUpStart] in H.
        destruct H as (_ & _ & _ & -> & _ & _ & -> & _). rewrite ?Hw.
        split; reflexivity.
      * intros H. apply takeShot_fields in H.
        cbn [shooterPos windUpStart] in H.
        destruct H as (_ & _ & _ & -> & _ & _ & -> & _).
        split; reflexivity.
Qed.

Lemma frames_winding_shooter (cfg : RoundConfig) (es : list Env) :
  forall (s s' : State) (ev : list Event),
    truthy (windUpStart s) = true ->
    frames cfg es s = Some (s', ev) ->
    shooterPos s' = shooterPos s /\ windUpStart s' = windUpStart s.
Proof.
  induction es as [|e es IH]; intros s s' ev Htr Hrun; cbn [frames] in Hrun.
  - inversion Hrun. split; reflexivity.
  - destruct (update cfg e s) as [[s1 ev1]|] eqn:Hup; [|discriminate Hrun].
    destruct (frames cfg es s1) as [[s2 ev2]|] eqn:Hrest;
      [|discriminate Hrun].
    inversion Hrun; subst s2 ev.
    destruct (update_winding_shooter cfg e s s1 ev1 Htr Hup) as [Hsh Hwu].
    assert (Htr1 : truthy (windUpStart s1) = true) by (rewrite Hwu; exact Htr).
    destruct (IH s1 s' ev2 Htr1 Hrest) as [Hsh' Hwu'].
    rewrite Hsh', Hwu', Hsh, Hwu. split; reflexivity.
Qed.

(** C6 as stated fails: round 4, wind-up started at clock 1000 with the
    shooter stopped at x = 340; at clock 1600, 600 ms later, the frame
    draws the threshold 250 + 0.5 * 100 = 300, the shooter is not left of
    it, and the shot is not released. *)
Lemma windup_not_released_after_500ms :
  isSlapShot (roundConfig 4) = true
  /\ windUpStart (windingUp 1000 340) = Some 1000%Z
  /\ (500 < now_shot midEnv - 1000)%Z
  /\ exists s',
       update (roundConfig 4) midEnv (windingUp 1000 340)
       = Some (s', [Draw; RequestFrame])
       /\ hasShot s' = false /\ roundEnded s' = false.
Proof.
  split; [reflexivity|]. split; [reflexivity|].
  split; [cbn; lia|].
  eexists. split; [|split].
  - unfold_frame. unfold windingUp, midEnv, roundConfig.
    frame_fields. rewrite (clampX_id 100), (clampY_id 300) by lra.
    eval_frame. cbn [app]. reflexivity.
  - reflexivity.
  - reflexivity.
Qed.

(** C6, amended.  In a slap-shot round, once the wind-up has started, no
    later frame moves the shooter, however many frames run; and a frame of
    the wind-up releases the shot exactly when more than 500 ms of clock
    time have passed since the wind-up started and the stopped shooter is
    left of the threshold [250 + 100 * random] drawn in that frame.  The
    frame returns a state unless the puck on the stick is exactly at the
    target point. *)
Theorem windup_holds_shooter_and_releases
  (cfg : RoundConfig) (e : Env) (es : list Env) (s : State) (t0 : Z)
  (Hslap : isSlapShot cfg = true)
  (Hwind : windUpStart s = Some t0) (Hclock : t0 <> 0%Z)
  (Hnot : hasShot s = false) (Hopen : roundEnded s = false) :
  (forall s' ev, frames cfg es s = Some (s', ev) ->
     shooterPos s' = shooterPos s)
  /\ (forall s' ev, update cfg e s = Some (s', ev) ->
        shooterPos s' = shooterPos s
        /\ windUpStart s' = Some t0
        /\ (hasShot s' = true
            <-> x (shooterPos s) < 250 + rnd_threshold e * 100
                /\ (500 < now_shot e - t0)%Z))
  /\ ({| x := x (shooterPos s) - 20; y := y (shooterPos s) |}
      <> {| x := GOAL_X; y := finalTargetY cfg (rnd_target e) |} ->
      exists s' ev, update cfg e s = Some (s', ev)).
Proof.
  pose proof (truthy_some t0 Hclock) as Htr.
  assert (Htr' : truthy (windUpStart s) = true) by (rewrite Hwind; exact Htr).
  split; [|split].
  - intros s' ev Hrun.
    exact (proj1 (frames_winding_shooter cfg es s s' ev Htr' Hrun)).
  - intros s' ev Hup.
    destruct (update_open cfg e s s' ev Hopen Hup) as (s2 & H3 & H4).
    rewrite Hnot in H3.
    pose proof (collisionDetection_fields s2) as Hc. rewrite <- H4 in Hc.
    cbn [fst] in Hc.
    destruct Hc as (_ & _ & _ & Hsh & _ & _ & _ & Hhs & Hwu).
    rewrite Hsh, Hwu, Hhs.
    apply (shooterAI_winding cfg e (animateAndMove cfg s) s2 t0 Hslap);
      [exact Hwind | exact Hclock | exact Hnot | exact H3].
  - intros Hne. destruct (update cfg e s) as [[s' ev]|] eqn:Hup.
    + exists s', ev. reflexivity.
    + exfalso. apply Hne.
      destruct (update_none_cases cfg e s Hup) as [[_ Heq]|[Hs _]].
      * rewrite (shooterAdvance_winding cfg e (animateAndMove cfg s) Htr')
          in Heq. exact Heq.
      * rewrite Hnot in Hs. discriminate Hs.
Qed.

Lemma windup_holds_shooter_and_releases_witness :
  exists s' ev,
    update (roundConfig 4) midEnv (windingUp 1000 240) = Some (s', ev)
    /\ shooterPos s' = shooterPos (windingUp 1000 240)
    /\ hasShot s' = true.
Proof.
  assert (Hslap : isSlapShot (roundConfig 4) = true) by reflexivity.
  assert (Hwind : windUpStart (windingUp 1000 240) = Some 1000%Z)
    by reflexivity.
  assert (Hclock : 1000%Z <> 0%Z) by discriminate.
  assert (Hnot : hasShot (windingUp 1000 240) = false) by reflexivity.
  assert (Hopen : roundEnded (windingUp 1000 240) = false) by reflexivity.
  destruct (windup_holds_shooter_and_releases (roundConfig 4) midEnv [midEnv]
              (windingUp 1000 240) 1000 Hslap Hwind Hclock Hnot Hopen)
    as (_ & Hframe & Hdef).
  destruct Hdef as (s' & ev & Hup).
  { intros H. apply (f_equal x) in H.
    cbn [x shooterPos windingUp] in H. unfold GOAL_X in H. lra. }
  exists s', ev. split; [exact Hup|].
  destruct (Hframe s' ev Hup) as (Hsh & _ & Hrel).
  split; [exact Hsh|]. apply Hrel.
  cbn [x shooterPos windingUp rnd_threshold now_shot midEnv].
  split; [lra|lia].
Defined.

(** A run of open frames applies [stanceStep] once per frame, with the
    stick selector it started with. *)
Lemma frames_stanceLerp (cfg : RoundConfig) (es : list Env) :
  forall s : State,
    liveFrames cfg es s ->
    exists s' ev,
      frames cfg es s = Some (s', ev)
      /\ stickPos s' = stickPos s
      /\ stanceLerp s'
         = Nat.iter (List.length es) (stanceStep (stickPos s)) (stanceLerp s).
Proof.
  induction es as [|e es IH]; intros s Hlive.
  - exists s, []. repeat split.
  - cbn [liveFrames] in Hlive. destruct Hlive as [Hopen Hrest].
    destruct (update cfg e s) as [[s1 ev1]|] eqn:Hup; [|destruct Hrest].
    destruct (IH s1 Hrest) as (s' & ev' & Hrun & Hstick & Hlerp).
    destruct (update_stanceLerp cfg e s s1 ev1 Hopen Hup) as [Hl1 Hs1].
    exists s', (ev1 ++ ev'). cbn [frames]. rewrite Hup, Hrun.
    split; [reflexivity|]. split; [congruence|].
    cbn [List.length]. rewrite Nat.iter_succ_r, Hlerp, Hs1, Hl1.
    reflexivity.
Qed.

(** C8.  An open frame moves the stance value 0.15 of the way toward its
    target (1 with the stick DOWN, 0 otherwise): from a value in [0,1] the
    new value is in [0,1]; it lies between the old value and the target and
    is never further from the target.  After [N] consecutive open frames
    with the stick DOWN, from 0, the value is within [(1 - 0.15)^N] of 1. *)
Theorem stanceLerp_bounded_monotone_convergent
  (cfg : RoundConfig) (e : Env) (s : State) (es : list Env) (s0 : State)
  (Hopen : roundEnded s = false)
  (Hlive : liveFrames cfg es s0)
  (Hdown : stickPos s0 = DOWN) (Hzero : stanceLerp s0 = 0) :
  (forall s1 ev, update cfg e s = Some (s1, ev) ->
     let t := targetStance (stickPos s) in
     stanceLerp s1 = stanceLerp s + (t - stanceLerp s) * 0.15
     /\ (0 <= stanceLerp s <= 1 -> 0 <= stanceLerp s1 <= 1)
     /\ (stanceLerp s <= stanceLerp s1 <= t
         \/ t <= stanceLerp s1 <= stanceLerp s)
     /\ Rabs (t - stanceLerp s1) <= Rabs (t - stanceLerp s))
  /\ (exists sN evN,
        frames cfg es s0 = Some (sN, evN)
        /\ stanceLerp sN = Nat.iter (List.length es) (stanceStep DOWN) 0
        /\ Rabs (stanceLerp sN - 1) <= (1 - 0.15) ^ List.length es).
Proof.
  split.
  - intros s1 ev Hup t.
    destruct (update_stanceLerp cfg e s s1 ev Hopen Hup) as [Hl _].
    rewrite Hl, stanceStep_target. fold t.
    assert (Ht : t = 1 \/ t = 0)
      by (destruct (targetStance_cases (stickPos s)) as [[_ H]|[_ H]]; tauto).
    split; [reflexivity|].
    split; [intros Hr; destruct Ht as [-> | ->]; lra|].
    split; [destruct (Rle_dec (stanceLerp s) t); [left|right]; lra|].
    unfold Rabs; repeat destruct (Rcase_abs _); lra.
  - destruct (frames_stanceLerp cfg es s0 Hlive)
      as (sN & evN & Hrun & _ & Hlerp).
    exists sN, evN. rewrite Hdown, Hzero in Hlerp.
    split; [exact Hrun|]. split; [exact Hlerp|].
    rewrite Hlerp, stance_down_closed_form.
    assert (Hp : 0 <= (1 - 0.15) ^ List.length es) by (apply pow_le; lra).
    unfold Rabs; destruct (Rcase_abs _); lra.
Qed.

Lemma stanceLerp_bounded_monotone_convergent_witness :
  exists sN evN,
    frames (roundConfig 1) [midEnv; midEnv] crouching = Some (sN, evN)
    /\ Rabs (stanceLerp sN - 1) <= (1 - 0.15) ^ 2.
Proof.
  assert (Hopen : roundEnded crouching = false) by reflexivity.
  assert (Hdown : stickPos crouching = DOWN) by reflexivity.
  assert (Hzero : stanceLerp crouching = 0) by reflexivity.
  assert (Hlive : liveFrames (roundConfig 1) [midEnv; midEnv] crouching).
  { cbn [liveFrames]. unfold_frame.
    unfold crouching, midEnv, roundConfig. frame_fields.
    rewrite (clampX_id 100), (clampY_id 300) by lra.
    eval_frame. cbn [app]. frame_fields.
    rewrite (clampX_id 100), (clampY_id 300) by lra.
    eval_frame. cbn [app]. tauto. }
  destruct (stanceLerp_bounded_monotone_convergent (roundConfig 1) midEnv
              crouching [midEnv; midEnv] crouching Hopen Hlive Hdown Hzero)
    as (_ & sN & evN & Hrun & _ & Hbound).
  exists sN, evN. split; [exact Hrun | exact Hbound].
Defined.

(** ** Reports over a whole round *)

Lemma reports_app (ev1 ev2 : list Event) :
  reports (ev1 ++ ev2) = reports ev1 ++ reports ev2.
Proof. unfold reports. apply flat_map_app. Qed.

Lemma collision_report_ends_round (s : State) :
  reports (snd (collisionDetection s)) <> [] ->
  roundEnded (fst (collisionDetection s)) = true.
Proof.
  unfold collisionDetection, goalLineCheck, canvasEdgeCheck.
  repeat first
    [ progress cbn
    | match goal with
      | |- context [if ?b then _ else _] => destruct b
      end ];
  try reflexivity.
  intros H. exfalso. apply H. reflexivity.
Qed.

Lemma update_reports (cfg : RoundConfig) (e : Env) (s s' : State)
  (ev : list Event) :
  update cfg e s = Some (s', ev) ->
  (List.length (reports ev) <= 2)%nat
  /\ (reports ev <> [] -> roundEnded s' = true).
Proof.
  intros Hup. destruct (roundEnded s) eqn:Hopen.
  - rewrite (update_after_round_end cfg e s Hopen) in Hup.
    inversion Hup; subst. cbn. split; [lia|congruence].
  - destruct (update_open cfg e s s' ev Hopen Hup) as (s2 & _ & Hcol).
    pose proof (collision_double_report s2) as [Hle _].
    pose proof (collision_report_ends_round s2) as Hend.
    rewrite <- Hcol in Hle, Hend. cbn [fst snd] in Hle, Hend.
    split; assumption.
Qed.

(** Over any run of frames of one round, [onRoundEnd] is called at most
    twice, and only by the frame that sets the round-ended flag. *)
Lemma frames_reports_at_most_two (cfg : RoundConfig) (es : list Env) :
  forall (s s' : State) (ev : list Event),
    frames cfg es s = Some (s', ev) ->
    (List.length (reports ev) <= 2)%nat.
Proof.
  induction es as [|e es IH]; intros s s' ev Hrun; cbn [frames] in Hrun.
  - inversion Hrun. cbn. lia.
  - destruct (update cfg e s) as [[s1 ev1]|] eqn:Hup; [|discriminate Hrun].
    destruct (frames cfg es s1) as [[s2 ev2]|] eqn:Hrest;
      [|discriminate Hrun].
    inversion Hrun; subst s2 ev. rewrite reports_app, length_app.
    destruct (update_reports cfg e s s1 ev1 Hup) as [Hle Hend].
    destruct (reports ev1) as [|r rs] eqn:Hr.
    + cbn. exact (IH s1 s' ev2 Hrest).
    + assert (Hended : roundEnded s1 = true) by (apply Hend; discriminate).
      rewrite (frames_frozen_closed cfg es s1 Hended) in Hrest.
      inversion Hrest. change (reports []) with (@nil (bool * option SaveType)).
      cbn [List.length] in *. lia.
Qed.

(** * Further properties of the component *)

(** ** Runs of frames and input events *)

Section RunInvariant.

Variable cfg : RoundConfig.
Variable ok : Step -> Prop.
Variable P : State -> Prop.

Hypothesis input_keeps : forall i s, P s -> P (handleInput i s).
Hypothesis frame_keeps :
  forall e s s' ev,
    ok (Frame e) -> P s -> update cfg e s = Some (s', ev) -> P s'.

Lemma run_preserves (steps : list Step) :
  forall s, Forall ok steps -> P s ->
    match run cfg steps s with
    | Some (s', _) => P s'
    | None => True
    end.
Proof.
  induction steps as [|st rest IH]; intros s Hok Hs; cbn [run].
  - exact Hs.
  - inversion Hok as [|? ? Hst Hrest]; subst. destruct st as [e|i].
    + destruct (update cfg e s) as [[s1 ev1]|] eqn:Hup; [|exact I].
      specialize (IH s1 Hrest (frame_keeps e s s1 ev1 Hst Hs Hup)).
      destruct (run cfg rest s1) as [[s2 ev2]|]; [exact IH|exact I].
    + exact (IH (handleInput i s) Hrest (input_keeps i s Hs)).
Qed.

End RunInvariant.

Lemma Forall_any_step (steps : list Step) : Forall (fun _ => True) steps.
Proof. induction steps; constructor; trivial. Qed.

(** ** The goalie's box *)

Lemma clampX_range (v : R) : 50 <= clampX v <= 140.
Proof.
  unfold clampX, Rmax, Rmin. repeat destruct (Rle_dec _ _); lra.
Qed.

Lemma clampY_range (v : R) : 50 <= clampY v <= 550.
Proof.
  unfold clampY, CANVAS_HEIGHT, Rmax, Rmin.
  repeat destruct (Rle_dec _ _); lra.
Qed.

Lemma goalieMovement_inBox (cfg : RoundConfig) (s : State) :
  inBox (goaliePos s) \/ isDragging s = false ->
  inBox (goalieMovement cfg s).
Proof.
  unfold goalieMovement, inBox. intros [Hbox|Hfree].
  - destruct (isDragging s); [exact Hbox|]. cbn [x y].
    split; [apply clampX_range | apply clampY_range].
  - rewrite Hfree. cbn [x y].
    split; [apply clampX_range | apply clampY_range].
Qed.

(** What an open frame does to the fields the later phases leave alone. *)
Lemma update_goalie_stick (cfg : RoundConfig) (e : Env) (s s' : State)
  (ev : list Event) :
  roundEnded s = false ->
  update cfg e s = Some (s', ev) ->
  goaliePos s' = goalieMovement cfg s /\ stickPos s' = stickPos s.
Proof.
  intros Hopen Hup.
  destruct (update_open cfg e s s' ev Hopen Hup) as (s2 & H3 & H4).
  pose proof (collisionDetection_fields s2) as Hc. rewrite <- H4 in Hc.
  cbn [fst] in Hc. destruct Hc as (Hg & Hst & _). rewrite Hg, Hst.
  destruct (hasShot s).
  - apply puckPhysics_fields in H3. destruct H3 as (-> & -> & _).
    split; reflexivity.
  - apply shooterAI_fields in H3. destruct H3 as (-> & -> & _).
    split; reflexivity.
Qed.

Lemma update_keeps_box (cfg : RoundConfig) (e : Env) (s s' : State)
  (ev : list Event) :
  inBox (goaliePos s) -> update cfg e s = Some (s', ev) ->
  inBox (goaliePos s').
Proof.
  intros Hbox Hup. destruct (roundEnded s) eqn:Hopen.
  - rewrite (update_after_round_end cfg e s Hopen) in Hup.
    inversion Hup; subst. exact Hbox.
  - destruct (update_goalie_stick cfg e s s' ev Hopen Hup) as [-> _].
    apply goalieMovement_inBox. left. exact Hbox.
Qed.

Lemma touch_inBox (target : Vector2) (s : State) :
  inBox (goaliePos (updateGoalieFromTouch target s)).
Proof.
  unfold updateGoalieFromTouch, inBox. cbn [goaliePos x y].
  split; [apply clampX_range | apply clampY_range].
Qed.

Lemma handleInput_keeps_box (i : InputEvent) (s : State) :
  inBox (goaliePos s) -> inBox (goaliePos (handleInput i s)).
Proof.
  intros Hbox. destruct i as [code|code|target|target|]; cbn [handleInput].
  - unfold handleKeyDown. destruct (roundEnded s); exact Hbox.
  - exact Hbox.
  - apply touch_inBox.
  - unfold handleTouchMove.
    destruct (isDragging s && negb (roundEnded s));
      [apply touch_inBox | exact Hbox].
  - exact Hbox.
Qed.

(** X1.  Whatever keys are held, wherever the pointer is dragged and
    however many frames run, a goalie that starts inside its movement box
    [50..140] x [50..550] is inside it after every run of input events and
    frames. *)
Theorem goalie_stays_in_box (cfg : RoundConfig) (steps : list Step)
  (s : State) (Hbox : inBox (goaliePos s)) :
  match run cfg steps s with
  | Some (s', _) => inBox (goaliePos s')
  | None => True
  end.
Proof.
  apply (run_preserves cfg (fun _ => True) (fun st => inBox (goaliePos st))).
  - exact handleInput_keeps_box.
  - intros e s0 s' ev _ Hs Hup. exact (update_keeps_box cfg e s0 s' ev Hs Hup).
  - apply Forall_any_step.
  - exact Hbox.
Qed.

Lemma goalie_stays_in_box_witness :
  match run (roundConfig 9)
          [Input (KeyDown "ArrowUp"); Frame midEnv;
           Input (TouchStart {| x := -30; y := 900 |}); Frame midEnv;
           Input TouchEnd; Input (KeyDown "KeyD"); Frame midEnv]
          resetState with
  | Some (s', _) => inBox (goaliePos s')
  | None => True
  end.
Proof.
  apply goalie_stays_in_box.
  unfold inBox, resetState, CANVAS_HEIGHT. cbn [goaliePos x y]. lra.
Defined.

(** ** The puck trail *)

Lemma pushTrail_cases (trail : list Vector2) (p : Vector2) :
  pushTrail trail p
  = (if (15 <=? List.length trail)%nat then tl trail else trail) ++ [p].
Proof.
  unfold pushTrail. rewrite length_app. cbn [List.length].
  destruct (15 <=? List.length trail)%nat eqn:Hfull.
  - apply Nat.leb_le in Hfull.
    replace (15 <? List.length trail + 1)%nat with true
      by (symmetry; apply Nat.ltb_lt; lia).
    destruct trail as [|q qs]; [cbn in Hfull; lia|reflexivity].
  - apply Nat.leb_gt in Hfull.
    replace (15 <? List.length trail + 1)%nat with false
      by (symmetry; apply Nat.ltb_ge; lia).
    reflexivity.
Qed.

Lemma pushTrail_length (trail : list Vector2) (p : Vector2) :
  (List.length trail <= 15)%nat ->
  (List.length (pushTrail trail p) <= 15)%nat.
Proof.
  intros Hcap. rewrite pushTrail_cases, length_app. cbn [List.length].
  destruct (15 <=? List.length trail)%nat eqn:Hfull.
  - destruct trail as [|q qs]; cbn [tl List.length] in *; lia.
  - apply Nat.leb_gt in Hfull. lia.
Qed.

Lemma puckPhysics_trail (cfg : RoundConfig) (e : Env) (s s' : State) :
  puckPhysics cfg e s = Some s' ->
  puckTrail s' = pushTrail (puckTrail s) (puckPos s').
Proof.
  unfold puckPhysics. destruct (magnetPull _ _ _ _); [|discriminate].
  intros H. inversion H. reflexivity.
Qed.

(** The trail after a frame: pushed once in flight, untouched otherwise. *)
Lemma update_trail (cfg : RoundConfig) (e : Env) (s s' : State)
  (ev : list Event) :
  update cfg e s = Some (s', ev) ->
  puckTrail s'
  = (if negb (roundEnded s) && hasShot s
     then pushTrail (puckTrail s) (puckPos s') else puckTrail s).
Proof.
  intros Hup. destruct (roundEnded s) eqn:Hopen.
  - rewrite (update_after_round_end cfg e s Hopen) in Hup.
    inversion Hup; subst. reflexivity.
  - destruct (update_open cfg e s s' ev Hopen Hup) as (s2 & H3 & H4).
    pose proof (collisionDetection_fields s2) as Hc. rewrite <- H4 in Hc.
    cbn [fst] in Hc. destruct Hc as (_ & _ & _ & _ & Hp & _ & Ht & _).
    rewrite Ht, Hp. cbn [negb andb]. destruct (hasShot s).
    + rewrite (puckPhysics_trail cfg e _ s2 H3). reflexivity.
    + apply shooterAI_fields in H3.
      destruct H3 as (_ & _ & _ & _ & _ & -> & _). reflexivity.
Qed.

Lemma handleInput_trail (i : InputEvent) (s : State) :
  puckTrail (handleInput i s) = puckTrail s.
Proof.
  destruct i; cbn [handleInput]; try reflexivity.
  - unfold handleKeyDown. destruct (roundEnded s); reflexivity.
  - unfold handleTouchMove.
    destruct (isDragging s && negb (roundEnded s)); reflexivity.
Qed.

(** X2.  The trail never holds more than 15 positions, over any run of
    frames and input events; a frame in flight appends the puck's new
    position as the newest entry and, when the trail is full, drops the
    oldest one. *)
Theorem puckTrail_capped_newest_last (cfg : RoundConfig) (steps : list Step)
  (s : State) (Hcap : (List.length (puckTrail s) <= 15)%nat) :
  match run cfg steps s with
  | Some (s', _) => (List.length (puckTrail s') <= 15)%nat
  | None => True
  end
  /\ (forall e s1 ev,
        roundEnded s = false -> hasShot s = true ->
        update cfg e s = Some (s1, ev) ->
        puckTrail s1
        = (if (15 <=? List.length (puckTrail s))%nat
           then tl (puckTrail s) else puckTrail s) ++ [puckPos s1]
        /\ last (puckTrail s1) (puckPos s) = puckPos s1).
Proof.
  split.
  - apply (run_preserves cfg (fun _ => True)
             (fun st => (List.length (puckTrail st) <= 15)%nat)).
    + intros i s0 H. rewrite handleInput_trail. exact H.
    + intros e s0 s' ev _ H Hup. rewrite (update_trail cfg e s0 s' ev Hup).
      destruct (negb (roundEnded s0) && hasShot s0);
        [apply pushTrail_length|]; exact H.
    + apply Forall_any_step.
    + exact Hcap.
  - intros e s1 ev Hopen Hshot Hup.
    rewrite (update_trail cfg e s s1 ev Hup), Hopen, Hshot. cbn [negb andb].
    rewrite pushTrail_cases. split; [reflexivity|]. apply last_last.
Qed.

Lemma puckTrail_capped_newest_last_witness :
  match run (roundConfig 1) [Frame midEnv; Input TouchEnd; Frame midEnv]
          crouching with
  | Some (s', _) => (List.length (puckTrail s') <= 15)%nat
  | None => True
  end.
Proof.
  assert (Hcap : (List.length (puckTrail crouching) <= 15)%nat)
    by (cbn; lia).
  exact (proj1 (puckTrail_capped_newest_last (roundConfig 1)
                  [Frame midEnv; Input TouchEnd; Frame midEnv]
                  crouching Hcap)).
Defined.

(** ** Before release *)

Lemma hypot_far_left (dx dy c : R) :
  c <= dx -> 0 < c -> Rltb (hypot dx dy) c = false.
Proof.
  intros Hdx Hc. apply Rltb_false. apply Rnot_lt_le. intros Hlt.
  apply hypot_lt in Hlt; [|exact Hc]. nra.
Qed.

(** With the goalie in its box, a puck at least 200 from the left edge and
    inside the canvas touches no zone: the frame is drawn and the next one
    requested. *)
Lemma collision_none_far (s : State) :
  inBox (goaliePos s) ->
  200 <= x (puckPos s) -> 0 <= y (puckPos s) <= 600 ->
  collisionDetection s = (s, [Draw; RequestFrame]).
Proof.
  intros [Hgx Hgy] Hpx Hpy.
  unfold collisionDetection, goalLineCheck, canvasEdgeCheck, inBody, inStick,
    inGlove, inButterfly, pastGoalLine, inGoalMouth, outOfCanvas,
    GOALIE_RADIUS, PUCK_RADIUS, GOAL_X, CANVAS_HEIGHT.
  rewrite hypot_far_left by lra.
  rewrite hypot_far_left by lra.
  rewrite (proj2 (Rltb_false (x (puckPos s)) (x (goaliePos s) + 35))) by lra.
  rewrite (proj2 (Rltb_false (x (puckPos s)) (x (goaliePos s) + 60))) by lra.
  rewrite (proj2 (Rltb_false (x (puckPos s)) (40 + 5))) by lra.
  rewrite (proj2 (Rltb_false (x (puckPos s)) 0)) by lra.
  rewrite (proj2 (Rltb_false (y (puckPos s)) 0)) by lra.
  rewrite (proj2 (Rgtb_false (y (puckPos s)) 600)) by lra.
  rewrite !andb_false_r. cbn [andb orb app].
  destruct (stickPos s); reflexivity.
Qed.

Lemma truthy_true (w : option Z) :
  truthy w = true <-> exists t0, w = Some t0 /\ t0 <> 0%Z.
Proof.
  destruct w as [t0|]; cbn.
  - rewrite negb_true_iff, Z.eqb_neq. split.
    + intros H. exists t0. split; [reflexivity|exact H].
    + intros (t & Ht & Hne). inversion Ht; subst. exact Hne.
  - split; [discriminate|]. intros (t & Ht & _). discriminate Ht.
Qed.

(** When the shooter phase releases, and when it starts the wind-up. *)
Lemma shooterAI_decision (cfg : RoundConfig) (e : Env) (s s' : State) :
  shooterAI cfg e s = Some s' ->
  hasShot s = false ->
  let crossed :=
    Rltb (x (shooterAdvance cfg e s)) (250 + rnd_threshold e * 100) in
  hasShot s'
  = crossed
    && (negb (isSlapShot cfg)
        || match windUpStart s with
           | Some t0 => negb (t0 =? 0)%Z && (500 <? now_shot e - t0)%Z
           | None => false
           end)
  /\ windUpStart s'
     = (if crossed && isSlapShot cfg && negb (truthy (windUpStart s))
        then Some (now_shot e) else windUpStart s).
Proof.
  intros Hai Hnot crossed. revert Hai. unfold shooterAI. fold crossed.
  destruct crossed; cbn [andb].
  2: { intros H; inversion H. cbn [hasShot windUpStart]. rewrite Hnot.
       split; reflexivity. }
  destruct (isSlapShot cfg); cbn [andb negb orb].
  - destruct (windUpStart s) as [t0|] eqn:Hw; cbn [truthy].
    + destruct (t0 =? 0)%Z; cbn [negb andb].
      * intros H; inversion H. cbn [hasShot windUpStart]. rewrite Hnot.
        split; reflexivity.
      * destruct (500 <? now_shot e - t0)%Z.
        -- intros H. apply takeShot_fields in H. cbn [windUpStart] in H.
           destruct H as (_ & _ & _ & _ & _ & _ & Hwu & _ & Hhs).
           rewrite Hhs, Hwu. split; reflexivity.
        -- intros H; inversion H. cbn [hasShot windUpStart]. rewrite Hnot.
           split; reflexivity.
    + cbn [negb]. intros H; inversion H. cbn [hasShot windUpStart].
      rewrite Hnot. split; reflexivity.
  - intros H. apply takeShot_fields in H.
    cbn [windUpStart] in H.
    destruct H as (_ & _ & _ & _ & _ & _ & Hwu & _ & Hhs).
    rewrite Hhs, Hwu. split; reflexivity.
Qed.

Lemma shooterAdvance_lane (cfg : RoundConfig) (e : Env) (s : State) :
  0 <= shooterSpeed cfg ->
  50 <= y (shooterPos s) <= 550 ->
  250 - shooterSpeed cfg <= x (shooterPos s) ->
  (truthy (windUpStart s) = false -> 250 <= x (shooterPos s)) ->
  50 <= y (shooterAdvance cfg e s) <= 550
  /\ 250 - shooterSpeed cfg <= x (shooterAdvance cfg e s)
  /\ x (shooterAdvance cfg e s) <= x (shooterPos s).
Proof.
  intros Hsp Hy Hx Hfar. unfold shooterAdvance.
  destruct (truthy (windUpStart s)); cbn [negb x y].
  - lra.
  - pose proof (clampY_range
        (y (shooterPos s)
         + (sin (IZR (now_sin e) / 200) * shooterSpeed cfg * 0.5
            + (rnd_jitter e - 0.5) * jitter cfg * 2))).
    specialize (Hfar eq_refl). lra.
Qed.

(** One frame before release, from the inside. *)
Lemma approach_frame (cfg : RoundConfig) (e : Env) (s : State) :
  0 <= shooterSpeed cfg <= 30 -> EnvOk e -> approaching cfg s ->
  exists s',
    update cfg e s = Some (s', [Draw; RequestFrame])
    /\ roundEnded s' = false
    /\ inBox (goaliePos s')
    /\ shooterPos s' = shooterAdvance cfg e s
    /\ puckPos s' = {| x := x (shooterPos s') - 20; y := y (shooterPos s') |}
    /\ hasShot s'
       = Rltb (x (shooterAdvance cfg e s)) (250 + rnd_threshold e * 100)
         && (negb (isSlapShot cfg)
             || match windUpStart s with
                | Some t0 => negb (t0 =? 0)%Z && (500 <? now_shot e - t0)%Z
                | None => false
                end)
    /\ windUpStart s'
       = (if Rltb (x (shooterAdvance cfg e s)) (250 + rnd_threshold e * 100)
             && isSlapShot cfg && negb (truthy (windUpStart s))
          then Some (now_shot e) else windUpStart s).
Proof.
  intros Hsp [Hrnd Hnow] (Hnot & Hopen & Hbox & Hy & Hx & Hfar).
  assert (Hlane := shooterAdvance_lane cfg e s (proj1 Hsp) Hy Hx Hfar).
  destruct Hlane as (Hy' & Hx' & _).
  assert (Hadv : shooterAdvance cfg e (animateAndMove cfg s)
                 = shooterAdvance cfg e s) by reflexivity.
  destruct (shooterAI cfg e (animateAndMove cfg s)) as [s2|] eqn:Hai.
  2: { exfalso. apply shooterAI_none in Hai. rewrite Hadv in Hai.
       apply (f_equal x) in Hai. cbn [x] in Hai. unfold GOAL_X in Hai. lra. }
  pose proof (shooterAI_fields cfg e _ s2 Hai) as Hf.
  rewrite Hadv in Hf. cbn [animateAndMove goaliePos roundEnded] in Hf.
  destruct Hf as (Hg2 & _ & _ & Hsh2 & Hp2 & _ & Hre2).
  pose proof (shooterAI_decision cfg e _ s2 Hai Hnot) as [Hhs Hwu].
  rewrite Hadv in Hhs, Hwu. cbn [animateAndMove windUpStart] in Hhs, Hwu.
  assert (Hbox2 : inBox (goaliePos s2)).
  { rewrite Hg2. apply goalieMovement_inBox. left. exact Hbox. }
  assert (Hcol : collisionDetection s2 = (s2, [Draw; RequestFrame])).
  { apply collision_none_far; [exact Hbox2| |]; rewrite Hp2; cbn [x y]; lra. }
  exists s2. split; [|split; [|split; [|split; [|split; [|split]]]]].
  - unfold update. rewrite Hopen.
    replace (negb (hasShot (animateAndMove cfg s))) with true
      by (cbn [animateAndMove hasShot]; rewrite Hnot; reflexivity).
    rewrite Hai, Hcol. reflexivity.
  - rewrite Hre2. exact Hopen.
  - exact Hbox2.
  - exact Hsh2.
  - rewrite Hp2, Hsh2. reflexivity.
  - exact Hhs.
  - exact Hwu.
Qed.

Lemma approach_frame_next (cfg : RoundConfig) (e : Env) (s s' : State)
  (ev : list Event) :
  0 <= shooterSpeed cfg <= 30 -> EnvOk e -> approaching cfg s ->
  update cfg e s = Some (s', ev) ->
  ev = [Draw; RequestFrame]
  /\ roundEnded s' = false
  /\ (hasShot s' = false -> approaching cfg s').
Proof.
  intros Hsp He Happ Hup.
  destruct (approach_frame cfg e s Hsp He Happ)
    as (s2 & Hup2 & Hre & Hbox & Hsh & _ & Hhs & Hwu).
  rewrite Hup in Hup2. inversion Hup2; subst s2 ev.
  split; [reflexivity|]. split; [exact Hre|]. intros Hnot'.
  destruct He as [Hrnd Hnow].
  destruct Happ as (Hnot & Hopen & _ & Hy & Hx & Hfar).
  destruct (shooterAdvance_lane cfg e s (proj1 Hsp) Hy Hx Hfar)
    as (Hy' & Hx' & _).
  unfold approaching. rewrite Hsh.
  split; [exact Hnot'|]. split; [exact Hre|]. split; [exact Hbox|].
  split; [exact Hy'|]. split; [exact Hx'|].
  intros Hcold. rewrite Hnot' in Hhs. rewrite Hwu in Hcold.
  destruct (Rltb (x (shooterAdvance cfg e s)) (250 + rnd_threshold e * 100))
    eqn:Hcross.
  - exfalso. cbn [andb] in Hhs, Hcold.
    destruct (isSlapShot cfg); cbn [negb orb andb] in Hhs, Hcold;
      [|discriminate Hhs].
    destruct (truthy (windUpStart s)) eqn:Htr; cbn [negb] in Hcold.
    + rewrite Htr in Hcold. discriminate Hcold.
    + cbn [truthy] in Hcold. apply negb_false_iff, Z.eqb_eq in Hcold.
      exact (Hnow Hcold).
  - apply Rltb_false in Hcross. lra.
Qed.

(** X3.  Before release, with the goalie in its box and a shooter speed of
    at most 30, every frame returns a state, reports no outcome, draws, and
    requests the next frame; it leaves the round open and the puck on the
    stick, 20 left of the shooter and at least 200 from the left edge (so
    [takeShot] never divides by zero there). *)
Theorem approach_frame_safe (cfg : RoundConfig) (e : Env) (s : State)
  (Hspeed : 0 <= shooterSpeed cfg <= 30) (He : EnvOk e)
  (Happ : approaching cfg s) :
  exists s',
    update cfg e s = Some (s', [Draw; RequestFrame])
    /\ roundEnded s' = false
    /\ puckPos s' = {| x := x (shooterPos s') - 20; y := y (shooterPos s') |}
    /\ 200 <= x (puckPos s')
    /\ 50 <= y (puckPos s') <= 550
    /\ (hasShot s' = false -> approaching cfg s').
Proof.
  destruct (approach_frame cfg e s Hspeed He Happ)
    as (s' & Hup & Hre & Hbox & Hsh & Hp & _).
  destruct (approach_frame_next cfg e s s' _ Hspeed He Happ Hup)
    as (_ & _ & Hnext).
  destruct Happ as (_ & _ & _ & Hy & Hx & Hfar).
  destruct (shooterAdvance_lane cfg e s (proj1 Hspeed) Hy Hx Hfar)
    as (Hy' & Hx' & _).
  exists s'. split; [exact Hup|]. split; [exact Hre|]. split; [exact Hp|].
  rewrite Hp, Hsh. cbn [x y]. split; [lra|]. split; [lra|exact Hnext].
Qed.

Lemma approaching_reset (cfg : RoundConfig) :
  0 <= shooterSpeed cfg -> approaching cfg resetState.
Proof.
  intros Hsp. unfold approaching, inBox, resetState, CANVAS_WIDTH,
    CANVAS_HEIGHT. cbn [hasShot roundEnded goaliePos shooterPos x y].
  repeat split; try lra.
Qed.

Lemma midEnv_ok : EnvOk midEnv.
Proof. unfold EnvOk, midEnv. cbn. split; [lra|discriminate]. Qed.

Lemma roundConfig_speed (n : Z) :
  (1 <= n <= 10)%Z -> 2 <= shooterSpeed (roundConfig n) <= 6.
Proof.
  intros Hn. unfold roundConfig. cbn [shooterSpeed].
  assert (1 <= IZR n <= 10) by (split; apply IZR_le; lia). lra.
Qed.

Lemma approach_frame_safe_witness :
  exists s',
    update (roundConfig 1) midEnv resetState = Some (s', [Draw; RequestFrame])
    /\ roundEnded s' = false /\ 200 <= x (puckPos s').
Proof.
  assert (Hn : (1 <= 1 <= 10)%Z) by lia.
  assert (Hsp : 0 <= shooterSpeed (roundConfig 1) <= 30)
    by (pose proof (roundConfig_speed 1 Hn); lra).
  destruct (approach_frame_safe (roundConfig 1) midEnv resetState Hsp
              midEnv_ok (approaching_reset (roundConfig 1) (proj1 Hsp)))
    as (s' & Hup & Hre & _ & Hx & _).
  exists s'. split; [exact Hup|]. split; [exact Hre | exact Hx].
Defined.

(** ** Flags that are never cleared *)

Lemma update_hasShot_mono (cfg : RoundConfig) (e : Env) (s s' : State)
  (ev : list Event) :
  update cfg e s = Some (s', ev) -> hasShot s = true -> hasShot s' = true.
Proof.
  intros Hup Hshot. destruct (roundEnded s) eqn:Hopen.
  - rewrite (update_after_round_end cfg e s Hopen) in Hup.
    inversion Hup; subst. exact Hshot.
  - destruct (update_open cfg e s s' ev Hopen Hup) as (s2 & H3 & H4).
    pose proof (collisionDetection_fields s2) as Hc. rewrite <- H4 in Hc.
    cbn [fst] in Hc. destruct Hc as (_ & _ & _ & _ & _ & _ & _ & Hhs & _).
    rewrite Hhs. rewrite Hshot in H3. apply puckPhysics_fields in H3.
    destruct H3 as (_ & _ & _ & _ & -> & _). exact Hshot.
Qed.

Lemma update_roundEnded_mono (cfg : RoundConfig) (e : Env) (s s' : State)
  (ev : list Event) :
  update cfg e s = Some (s', ev) -> roundEnded s = true ->
  roundEnded s' = true.
Proof.
  intros Hup Hended. rewrite (update_after_round_end cfg e s Hended) in Hup.
  inversion Hup; subst. exact Hended.
Qed.

(** The fields no input handler writes. *)
Lemma handleInput_fields (i : InputEvent) (s : State) :
  let s' := handleInput i s in
  hasShot s' = hasShot s /\ roundEnded s' = roundEnded s
  /\ shooterPos s' = shooterPos s /\ windUpStart s' = windUpStart s
  /\ puckPos s' = puckPos s /\ puckVel s' = puckVel s
  /\ stanceLerp s' = stanceLerp s /\ frameCount s' = frameCount s.
Proof.
  destruct i as [code|code|target|target|]; cbn [handleInput].
  - unfold handleKeyDown. destruct (roundEnded s) eqn:Hre; cbn;
      rewrite ?Hre; repeat split.
  - cbn. repeat split.
  - cbn. repeat split.
  - unfold handleTouchMove.
    destruct (isDragging s && negb (roundEnded s)); cbn; repeat split.
  - cbn. repeat split.
Qed.

Lemma run_hasShot_mono (cfg : RoundConfig) (steps : list Step) :
  forall s s' ev,
    hasShot s = true -> run cfg steps s = Some (s', ev) -> hasShot s' = true.
Proof.
  intros s s' ev Hshot Hrun.
  pose proof (run_preserves cfg (fun _ => True)
                (fun st => hasShot st = true)) as Hp.
  specialize (Hp (fun i st H =>
                    eq_trans (proj1 (handleInput_fields i st)) H)).
  specialize (Hp (fun e st st' ev' _ H Hup =>
                    update_hasShot_mono cfg e st st' ev' Hup H)).
  specialize (Hp steps s (Forall_any_step steps) Hshot).
  rewrite Hrun in Hp. exact Hp.
Qed.

(** X8.  Over any run of frames and input events, the released flag and the
    round-ended flag are never cleared, and a wind-up clock, once set, is
    never changed. *)
Theorem flags_never_cleared (cfg : RoundConfig) (steps : list Step)
  (s : State) :
  match run cfg steps s with
  | Some (s', _) =>
      (hasShot s = true -> hasShot s' = true)
      /\ (roundEnded s = true -> roundEnded s' = true)
      /\ (truthy (windUpStart s) = true -> windUpStart s' = windUpStart s)
  | None => True
  end.
Proof.
  apply (run_preserves cfg (fun _ => True)
           (fun st => (hasShot s = true -> hasShot st = true)
                      /\ (roundEnded s = true -> roundEnded st = true)
                      /\ (truthy (windUpStart s) = true ->
                          windUpStart st = windUpStart s))).
  - intros i st (H1 & H2 & H3).
    destruct (handleInput_fields i st) as (-> & -> & _ & -> & _).
    tauto.
  - intros e st st' ev _ (H1 & H2 & H3) Hup. split; [|split].
    + intros H. exact (update_hasShot_mono cfg e st st' ev Hup (H1 H)).
    + intros H. exact (update_roundEnded_mono cfg e st st' ev Hup (H2 H)).
    + intros H. specialize (H3 H).
      assert (Htr : truthy (windUpStart st) = true) by (rewrite H3; exact H).
      destruct (update_winding_shooter cfg e st st' ev Htr Hup) as [_ Hw].
      rewrite Hw. exact H3.
  - apply Forall_any_step.
  - tauto.
Qed.

Lemma handleInput_keeps_approaching (cfg : RoundConfig) (i : InputEvent)
  (s : State) :
  approaching cfg s -> approaching cfg (handleInput i s).
Proof.
  intros (Hnot & Hopen & Hbox & Hy & Hx & Hfar). unfold approaching.
  destruct (handleInput_fields i s) as (-> & -> & -> & -> & _).
  repeat split; try assumption; try tauto.
  - apply (handleInput_keeps_box i s Hbox).
  - apply (handleInput_keeps_box i s Hbox).
  - apply (handleInput_keeps_box i s Hbox).
  - apply (handleInput_keeps_box i s Hbox).
Qed.

(** An open frame counts itself. *)
Lemma update_frameCount (cfg : RoundConfig) (e : Env) (s s' : State)
  (ev : list Event) :
  roundEnded s = false -> update cfg e s = Some (s', ev) ->
  frameCount s' = (frameCount s + 1)%Z.
Proof.
  intros Hopen Hup.
  destruct (update_open cfg e s s' ev Hopen Hup) as (s2 & H3 & H4).
  assert (Hf2 : frameCount s' = frameCount s2).
  { change s' with (fst (s', ev)). rewrite H4.
    unfold collisionDetection, goalLineCheck, canvasEdgeCheck.
    repeat first
      [ progress cbn
      | match goal with
        | |- context [if ?b then _ else _] => destruct b
        end ];
    reflexivity. }
  rewrite Hf2. destruct (hasShot s).
  - unfold puckPhysics in H3.
    destruct (magnetPull _ _ _ _); [|discriminate H3].
    inversion H3. reflexivity.
  - revert H3. unfold shooterAI, takeShot.
    repeat match goal with
      | |- context [if ?b then _ else _] => destruct b
      | |- context [match windUpStart ?w with _ => _ end] =>
          destruct (windUpStart w)
      end;
    intros H3; inversion H3; reflexivity.
Qed.

Lemma run_before_release (cfg : RoundConfig) (steps : list Step) :
  0 <= shooterSpeed cfg <= 30 ->
  forall s s' ev,
    Forall stepOk steps -> approaching cfg s ->
    run cfg steps s = Some (s', ev) -> hasShot s' = false ->
    reports ev = [] /\ approaching cfg s'
    /\ frameCount s'
       = (frameCount s
          + Z.of_nat (List.length
                        (filter (fun st => match st with
                                           | Frame _ => true
                                           | Input _ => false
                                           end) steps)))%Z.
Proof.
  intros Hsp. induction steps as [|st rest IH]; intros s s' ev Hok Happ Hrun Hnot.
  - cbn [run] in Hrun. inversion Hrun; subst. cbn.
    split; [reflexivity|]. split; [exact Happ|lia].
  - inversion Hok as [|? ? Hst Hrest]; subst. destruct st as [e|i];
      cbn [run] in Hrun; cbn [filter List.length].
    + destruct (update cfg e s) as [[s1 ev1]|] eqn:Hup; [|discriminate Hrun].
      destruct (run cfg rest s1) as [[s2 ev2]|] eqn:Hrest2;
        [|discriminate Hrun].
      inversion Hrun; subst s2 ev.
      destruct (approach_frame_next cfg e s s1 ev1 Hsp Hst Happ Hup)
        as (-> & _ & Hnext).
      destruct (hasShot s1) eqn:Hs1.
      * rewrite (run_hasShot_mono cfg rest s1 s' ev2 Hs1 Hrest2) in Hnot.
        discriminate Hnot.
      * destruct (IH s1 s' ev2 Hrest (Hnext eq_refl) Hrest2 Hnot)
          as (Hrep & Happ' & Hfc).
        split; [rewrite reports_app, Hrep; reflexivity|].
        split; [exact Happ'|].
        rewrite Hfc.
        assert (Hone : frameCount s1 = (frameCount s + 1)%Z)
          by (destruct Happ as (_ & Hopen & _);
              exact (update_frameCount cfg e s s1 _ Hopen Hup)).
        rewrite Hone. lia.
    + destruct (handleInput_fields i s) as (_ & _ & _ & _ & _ & _ & _ & Hfc).
      destruct (IH (handleInput i s) s' ev Hrest
                  (handleInput_keeps_approaching cfg i s Happ) Hrun Hnot)
        as (Hrep & Happ' & Hfc').
      split; [exact Hrep|]. split; [exact Happ'|]. rewrite Hfc', Hfc.
      reflexivity.
Qed.

(** X4.  From a state before release, over any run of input events and
    frames under a shooter speed of at most 30: as long as the puck has not
    been released, no outcome has been reported and the round is open. *)
Theorem no_outcome_before_release (cfg : RoundConfig) (steps : list Step)
  (s : State)
  (Hspeed : 0 <= shooterSpeed cfg <= 30)
  (Hok : Forall stepOk steps) (Happ : approaching cfg s) :
  match run cfg steps s with
  | Some (s', ev) =>
      hasShot s' = false -> reports ev = [] /\ roundEnded s' = false
  | None => True
  end.
Proof.
  destruct (run cfg steps s) as [[s' ev]|] eqn:Hrun; [|exact I].
  intros Hnot.
  destruct (run_before_release cfg steps Hspeed s s' ev Hok Happ Hrun Hnot)
    as (Hrep & (_ & Hopen & _) & _).
  split; [exact Hrep | exact Hopen].
Qed.

Lemma no_outcome_before_release_witness :
  match run (roundConfig 4)
          [Frame midEnv; Input (KeyDown "KeyC"); Frame midEnv;
           Input (TouchStart {| x := 700; y := 300 |}); Frame midEnv]
          resetState with
  | Some (s', ev) =>
      hasShot s' = false -> reports ev = [] /\ roundEnded s' = false
  | None => True
  end.
Proof.
  assert (Hn : (1 <= 4 <= 10)%Z) by lia.
  assert (Hsp : 0 <= shooterSpeed (roundConfig 4) <= 30)
    by (pose proof (roundConfig_speed 4 Hn); lra).
  apply (no_outcome_before_release (roundConfig 4) _ resetState Hsp).
  - repeat (apply Forall_cons; [first [exact midEnv_ok | exact I]|]).
    apply Forall_nil.
  - exact (approaching_reset (roundConfig 4) (proj1 Hsp)).
Defined.

(** X5.  Without the slap-shot modifier, a frame before release moves the
    shooter left by the shooter speed and releases exactly when the new
    abscissa is left of the threshold drawn in that frame: always once it is
    below 250, never while it is 350 or more. *)
Theorem release_window (cfg : RoundConfig) (e : Env) (s : State)
  (Hspeed : 0 <= shooterSpeed cfg <= 30) (He : EnvOk e)
  (Happ : approaching cfg s)
  (Hplain : isSlapShot cfg = false) (Hnull : windUpStart s = None) :
  exists s',
    update cfg e s = Some (s', [Draw; RequestFrame])
    /\ x (shooterPos s') = x (shooterPos s) - shooterSpeed cfg
    /\ (hasShot s' = true
        <-> x (shooterPos s') < 250 + rnd_threshold e * 100)
    /\ (x (shooterPos s') < 250 -> hasShot s' = true)
    /\ (hasShot s' = true -> x (shooterPos s') < 350).
Proof.
  destruct (approach_frame cfg e s Hspeed He Happ)
    as (s' & Hup & _ & _ & Hsh & _ & Hhs & _).
  exists s'. split; [exact Hup|].
  assert (Hx : x (shooterPos s') = x (shooterPos s) - shooterSpeed cfg).
  { rewrite Hsh. unfold shooterAdvance. rewrite Hnull. reflexivity. }
  split; [exact Hx|].
  rewrite Hplain in Hhs. cbn [negb orb] in Hhs. rewrite andb_true_r in Hhs.
  rewrite <- Hsh in Hhs. rewrite Hhs, Rltb_true.
  destruct He as [Hrnd _]. split; [tauto|]. split; intros; lra.
Qed.

Lemma release_window_witness :
  exists s',
    update (roundConfig 1) midEnv carrying = Some (s', [Draw; RequestFrame])
    /\ hasShot s' = true.
Proof.
  assert (Hn : (1 <= 1 <= 10)%Z) by lia.
  pose proof (roundConfig_speed 1 Hn) as Hs.
  assert (Hsp : 0 <= shooterSpeed (roundConfig 1) <= 30) by lra.
  assert (Happ : approaching (roundConfig 1) carrying).
  { unfold approaching, inBox, carrying.
    cbn [hasShot roundEnded goaliePos shooterPos x y].
    repeat split; try lra. }
  destruct (release_window (roundConfig 1) midEnv carrying Hsp midEnv_ok
              Happ eq_refl eq_refl) as (s' & Hup & Hx & Hiff & _).
  exists s'. split; [exact Hup|]. apply Hiff. rewrite Hx.
  cbn [x shooterPos carrying rnd_threshold midEnv]. lra.
Defined.

(** X6.  With the slap-shot modifier, the frame in which the shooter first
    comes left of the threshold starts the wind-up, at the clock of that
    frame, and releases nothing; a frame releases only a wind-up started
    more than 500 ms before, and then leaves the shooter where it stood. *)
Theorem slap_shot_winds_up_first (cfg : RoundConfig) (e : Env) (s : State)
  (Hspeed : 0 <= shooterSpeed cfg <= 30) (He : EnvOk e)
  (Happ : approaching cfg s) (Hslap : isSlapShot cfg = true) :
  exists s',
    update cfg e s = Some (s', [Draw; RequestFrame])
    /\ (windUpStart s = None ->
        hasShot s' = false
        /\ (windUpStart s' = Some (now_shot e)
            <-> x (shooterPos s') < 250 + rnd_threshold e * 100)
        /\ (~ x (shooterPos s') < 250 + rnd_threshold e * 100 ->
            windUpStart s' = None))
    /\ (hasShot s' = true ->
        exists t0,
          windUpStart s = Some t0 /\ (500 < now_shot e - t0)%Z
          /\ shooterPos s' = shooterPos s).
Proof.
  destruct (approach_frame cfg e s Hspeed He Happ)
    as (s' & Hup & _ & _ & Hsh & _ & Hhs & Hwu).
  exists s'. split; [exact Hup|]. rewrite Hslap in Hhs, Hwu.
  cbn [negb orb] in Hhs. rewrite andb_true_r in Hwu.
  rewrite <- Hsh in Hhs, Hwu. split.
  - intros Hnull. rewrite Hnull in Hhs, Hwu. cbn [truthy negb] in Hwu.
    rewrite andb_false_r in Hhs. rewrite andb_true_r in Hwu.
    split; [exact Hhs|]. rewrite Hwu.
    destruct (Rltb (x (shooterPos s')) (250 + rnd_threshold e * 100))
      eqn:Hc.
    + apply Rltb_true in Hc. split; [tauto|]. intros Hn.
      exfalso. exact (Hn Hc).
    + apply Rltb_false in Hc. split; [|reflexivity].
      split; [discriminate|intros; lra].
  - intros Hrel. rewrite Hrel in Hhs. symmetry in Hhs.
    apply andb_true_iff in Hhs. destruct Hhs as [_ Hw].
    destruct (windUpStart s) as [t0|] eqn:Hws; [|discriminate Hw].
    apply andb_true_iff in Hw. destruct Hw as [Hne Hms].
    exists t0. split; [reflexivity|]. split; [apply Z.ltb_lt; exact Hms|].
    rewrite Hsh. apply shooterAdvance_winding. rewrite Hws. exact Hne.
Qed.

Lemma slap_shot_winds_up_first_witness :
  exists s',
    update (roundConfig 4) midEnv carrying = Some (s', [Draw; RequestFrame])
    /\ hasShot s' = false /\ windUpStart s' = Some 1600%Z.
Proof.
  assert (Hn : (1 <= 4 <= 10)%Z) by lia.
  pose proof (roundConfig_speed 4 Hn) as Hs.
  assert (Hsp : 0 <= shooterSpeed (roundConfig 4) <= 30) by lra.
  assert (Happ : approaching (roundConfig 4) carrying).
  { unfold approaching, inBox, carrying.
    cbn [hasShot roundEnded goaliePos shooterPos x y].
    repeat split; try lra. }
  destruct (slap_shot_winds_up_first (roundConfig 4) midEnv carrying Hsp
              midEnv_ok Happ eq_refl) as (s' & Hup & Hfirst & _).
  destruct (Hfirst eq_refl) as (Hnot & Hiff & _).
  exists s'. split; [exact Hup|]. split; [exact Hnot|]. apply Hiff.
  cbn [rnd_threshold midEnv].
  destruct (approach_frame (roundConfig 4) midEnv carrying Hsp midEnv_ok
              Happ) as (s2 & Hup2 & _ & _ & Hsh & _).
  rewrite Hup in Hup2. inversion Hup2; subst s2. rewrite Hsh.
  unfold shooterAdvance. cbn [windUpStart carrying truthy negb x shooterPos].
  lra.
Defined.

(** X7.  Without the slap-shot modifier, as long as the puck has not been
    released the shooter has advanced by exactly one stride per frame run
    and is still at 250 or more: the release comes within
    [(x0 - 250) / shooterSpeed] frames, plus one. *)
Theorem release_within_bounded_frames (cfg : RoundConfig)
  (steps : list Step) (s : State)
  (Hspeed : 0 <= shooterSpeed cfg <= 30)
  (Hok : Forall stepOk steps) (Happ : approaching cfg s)
  (Hplain : isSlapShot cfg = false) (Hnull : windUpStart s = None) :
  match run cfg steps s with
  | Some (s', _) =>
      hasShot s' = false ->
      x (shooterPos s')
      = x (shooterPos s)
        - IZR (frameCount s' - frameCount s) * shooterSpeed cfg
      /\ 250 <= x (shooterPos s')
      /\ IZR (frameCount s' - frameCount s) * shooterSpeed cfg
         <= x (shooterPos s) - 250
  | None => True
  end.
Proof.
  pose proof (run_preserves cfg stepOk
    (fun st => hasShot st = false ->
               approaching cfg st /\ windUpStart st = None
               /\ x (shooterPos st)
                  = x (shooterPos s)
                    - IZR (frameCount st - frameCount s) * shooterSpeed cfg))
    as Hp.
  assert (Hin : forall i st,
            (hasShot st = false ->
             approaching cfg st /\ windUpStart st = None
             /\ x (shooterPos st)
                = x (shooterPos s)
                  - IZR (frameCount st - frameCount s) * shooterSpeed cfg) ->
            hasShot (handleInput i st) = false ->
            approaching cfg (handleInput i st)
            /\ windUpStart (handleInput i st) = None
            /\ x (shooterPos (handleInput i st))
               = x (shooterPos s)
                 - IZR (frameCount (handleInput i st) - frameCount s)
                   * shooterSpeed cfg).
  { intros i st H Hnot.
    pose proof (handleInput_fields i st) as Hf. cbn zeta in Hf.
    destruct Hf as (Hhs & _ & Hsh & Hwu & _ & _ & _ & Hfc).
    rewrite Hhs in Hnot. destruct (H Hnot) as (Ha & Hw & Hx).
    rewrite Hsh, Hwu, Hfc.
    split; [apply handleInput_keeps_approaching; exact Ha|].
    split; assumption. }
  specialize (Hp Hin). clear Hin.
  assert (Hfr : forall e st st' ev,
            stepOk (Frame e) ->
            (hasShot st = false ->
             approaching cfg st /\ windUpStart st = None
             /\ x (shooterPos st)
                = x (shooterPos s)
                  - IZR (frameCount st - frameCount s) * shooterSpeed cfg) ->
            update cfg e st = Some (st', ev) ->
            hasShot st' = false ->
            approaching cfg st' /\ windUpStart st' = None
            /\ x (shooterPos st')
               = x (shooterPos s)
                 - IZR (frameCount st' - frameCount s) * shooterSpeed cfg).
  { intros e st st' ev He H Hup Hnot'. cbn [stepOk] in He.
    destruct (hasShot st) eqn:Hs0.
    - rewrite (update_hasShot_mono cfg e st st' ev Hup Hs0) in Hnot'.
      discriminate Hnot'.
    - destruct (H eq_refl) as (Ha & Hw & Hx).
      destruct (approach_frame cfg e st Hspeed He Ha)
        as (s2 & Hup2 & _ & _ & Hsh & _ & _ & Hwu).
      rewrite Hup in Hup2. inversion Hup2; subst s2 ev.
      destruct (approach_frame_next cfg e st st' _ Hspeed He Ha Hup)
        as (_ & _ & Hnext).
      split; [exact (Hnext Hnot')|]. split.
      + rewrite Hwu, Hplain, andb_false_r. cbn [andb]. exact Hw.
      + destruct Ha as (_ & Hopen & _).
        rewrite (update_frameCount cfg e st st' _ Hopen Hup).
        rewrite Hsh. unfold shooterAdvance. rewrite Hw. cbn [truthy negb x].
        rewrite Hx.
        replace (frameCount st + 1 - frameCount s)%Z
          with (frameCount st - frameCount s + 1)%Z by lia.
        rewrite plus_IZR. lra. }
  specialize (Hp Hfr steps s Hok). clear Hfr.
  assert (H0 : hasShot s = false ->
               approaching cfg s /\ windUpStart s = None
               /\ x (shooterPos s)
                  = x (shooterPos s)
                    - IZR (frameCount s - frameCount s) * shooterSpeed cfg).
  { intros _. split; [exact Happ|]. split; [exact Hnull|].
    rewrite Z.sub_diag. lra. }
  specialize (Hp H0).
  destruct (run cfg steps s) as [[s' ev]|]; [|exact I].
  intros Hnot. destruct (Hp Hnot) as ((_ & _ & _ & _ & _ & Hfar) & Hw & Hx).
  rewrite Hw in Hfar. specialize (Hfar eq_refl).
  split; [exact Hx|]. split; [exact Hfar|]. lra.
Qed.

Lemma release_within_bounded_frames_witness :
  match run (roundConfig 1) [Frame midEnv; Frame midEnv; Frame midEnv]
          resetState with
  | Some (s', _) =>
      hasShot s' = false ->
      IZR (frameCount s' - frameCount resetState)
      * shooterSpeed (roundConfig 1)
      <= x (shooterPos resetState) - 250
  | None => True
  end.
Proof.
  assert (Hn : (1 <= 1 <= 10)%Z) by lia.
  pose proof (roundConfig_speed 1 Hn) as Hs.
  assert (Hsp : 0 <= shooterSpeed (roundConfig 1) <= 30) by lra.
  assert (Hok : Forall stepOk [Frame midEnv; Frame midEnv; Frame midEnv])
    by (repeat (apply Forall_cons; [first [exact midEnv_ok | exact I]|]);
        apply Forall_nil).
  pose proof (release_within_bounded_frames (roundConfig 1)
                [Frame midEnv; Frame midEnv; Frame midEnv] resetState Hsp Hok
                (approaching_reset (roundConfig 1) (proj1 Hsp))
                eq_refl eq_refl) as H.
  destruct (run (roundConfig 1) [Frame midEnv; Frame midEnv; Frame midEnv]
              resetState) as [[s' ev]|]; [|exact I].
  intros Hnot. destruct (H Hnot) as (_ & _ & Hb). exact Hb.
Defined.

(** ** What a frame reports and requests *)

(** X9.  Every outcome a frame reports is justified by the position of the
    puck after physics: a save type names a zone that holds the puck while
    no zone of higher priority does (glove only with the stick UP, butterfly
    only with the stick DOWN); a miss means no save zone holds the puck and
    the puck is past the goal line outside the goal mouth or off the canvas;
    a goal means no save zone holds it and it is past the goal line strictly
    between the posts. *)
Theorem report_is_justified (s : State) (ok : bool) (st : option SaveType)
  (Hin : In (ok, st) (reports (snd (collisionDetection s)))) :
  match st with
  | Some body => ok = true /\ inBody s = true
  | Some stick => ok = true /\ inBody s = false /\ inStick s = true
  | Some glove =>
      ok = true /\ inBody s = false /\ inStick s = false
      /\ stickPos s = UP /\ inGlove s = true
  | Some butterfly =>
      ok = true /\ inBody s = false /\ inStick s = false
      /\ inGlove s = false /\ stickPos s = DOWN /\ inButterfly s = true
  | Some miss =>
      ok = true /\ inBody s = false /\ inStick s = false
      /\ inGlove s = false /\ inButterfly s = false
      /\ ((x (puckPos s) < GOAL_X + 5
           /\ ~ (GOAL_TOP < y (puckPos s) < GOAL_BOTTOM))
          \/ x (puckPos s) < 0 \/ y (puckPos s) < 0
          \/ CANVAS_HEIGHT < y (puckPos s))
  | None =>
      ok = false /\ inBody s = false /\ inStick s = false
      /\ inGlove s = false /\ inButterfly s = false
      /\ x (puckPos s) < GOAL_X + 5
      /\ GOAL_TOP < y (puckPos s) < GOAL_BOTTOM
  end.
Proof.
  destruct (inBody s) eqn:Hb.
  { destruct (collision_save_priority s) as (H & _).
    rewrite (H Hb) in Hin. cbn in Hin. destruct Hin as [Hin|[]].
    inversion Hin; subst. split; reflexivity. }
  destruct (inStick s) eqn:Hs.
  { destruct (collision_save_priority s) as (_ & H & _).
    rewrite (H Hb Hs) in Hin. cbn in Hin. destruct Hin as [Hin|[]].
    inversion Hin; subst. repeat split. }
  destruct (inGlove s) eqn:Hg.
  { destruct (collision_save_priority s) as (_ & _ & H & _).
    rewrite (H Hb Hs Hg) in Hin. cbn in Hin. destruct Hin as [Hin|[]].
    inversion Hin; subst. repeat split. apply glove_only_up. exact Hg. }
  destruct (inButterfly s) eqn:Hf.
  { destruct (collision_save_priority s) as (_ & _ & _ & H).
    rewrite (H Hb Hs Hg Hf) in Hin. cbn in Hin. destruct Hin as [Hin|[]].
    inversion Hin; subst. repeat split. apply butterfly_only_down.
    exact Hf. }
  rewrite (collision_no_save s Hb Hs Hg Hf) in Hin.
  apply in_app_or in Hin. destruct Hin as [Hin|Hin].
  - destruct (pastGoalLine s) eqn:Hp; [|destruct Hin].
    apply Rltb_true in Hp.
    destruct (inGoalMouth s) eqn:Hm; cbn in Hin; destruct Hin as [Hin|[]];
      inversion Hin; subst.
    + apply inGoalMouth_true in Hm. repeat split; tauto.
    + repeat split. left. split; [exact Hp|].
      intros Hc. apply inGoalMouth_true in Hc. congruence.
  - destruct (outOfCanvas s) eqn:Ho; [|destruct Hin].
    apply outOfCanvas_true in Ho. cbn in Hin. destruct Hin as [Hin|[]].
    inversion Hin; subst. repeat split. right. exact Ho.
Qed.

Lemma report_is_justified_witness :
  true = true /\ inBody (inFlight {| x := 100; y := 300 |}
                           {| x := 110; y := 305 |} {| x := -9; y := 1 |})
                 = true.
Proof.
  apply (report_is_justified
           (inFlight {| x := 100; y := 300 |} {| x := 110; y := 305 |}
              {| x := -9; y := 1 |}) true (Some body)).
  unfold_frame. unfold inFlight. eval_frame. cbn. left. reflexivity.
Defined.

Lemma collision_events_shape (s : State) :
  roundEnded s = false ->
  (exists st, st <> miss
      /\ collisionDetection s
         = (fst (endRound true (Some st) s), [OnRoundEnd true (Some st)]))
  \/ (exists rs,
        snd (collisionDetection s) = rs ++ [Draw; RequestFrame]
        /\ (List.length rs <= 2)%nat
        /\ Forall (fun r => r = OnRoundEnd false None
                            \/ r = OnRoundEnd true (Some miss)) rs
        /\ (rs = [] <-> roundEnded (fst (collisionDetection s)) = false)).
Proof.
  intros Hopen. unfold collisionDetection.
  destruct (inBody s); [left; exists body; split; [discriminate|reflexivity]|].
  destruct (inStick s);
    [left; exists stick; split; [discriminate|reflexivity]|].
  destruct (inGlove s);
    [left; exists glove; split; [discriminate|reflexivity]|].
  destruct (inButterfly s);
    [left; exists butterfly; split; [discriminate|reflexivity]|].
  right. unfold goalLineCheck, canvasEdgeCheck, outOfCanvas.
  destruct (pastGoalLine s); [destruct (inGoalMouth s)|];
    cbn [endRound puckPos fst snd];
    match goal with
    | |- context [if ?b then _ else _] => destruct b
    end; cbn [endRound fst snd roundEnded];
    match goal with
    | |- exists rs, ?a ++ ?b ++ ?t = rs ++ ?t /\ _ =>
        exists (a ++ b); split; [apply app_assoc|]
    end; cbn [app List.length];
    (split; [lia|]); (split; [repeat constructor; tauto|]);
    split; intros; try discriminate; try reflexivity; try assumption.
Qed.

(** X10.  The events of one frame have one of three shapes.  With the round
    already ended: nothing, and the state is returned as it was.  With a
    save by body, stick, glove or butterfly: that one report and nothing
    else, so no further frame is requested.  Otherwise: at most two reports,
    each a goal or a miss, then one draw and one frame request; the round
    is left open exactly when there was no report. *)
Theorem frame_events_shape (cfg : RoundConfig) (e : Env) (s : State) :
  match update cfg e s with
  | Some (s', ev) =>
      (roundEnded s = true /\ ev = [] /\ s' = s)
      \/ (roundEnded s = false
          /\ exists st, st <> miss /\ ev = [OnRoundEnd true (Some st)]
                        /\ roundEnded s' = true)
      \/ (roundEnded s = false
          /\ exists rs,
               ev = rs ++ [Draw; RequestFrame]
               /\ (List.length rs <= 2)%nat
               /\ Forall (fun r => r = OnRoundEnd false None
                                   \/ r = OnRoundEnd true (Some miss)) rs
               /\ (rs = [] <-> roundEnded s' = false))
  | None => roundEnded s = false
  end.
Proof.
  destruct (roundEnded s) eqn:Hopen.
  - rewrite (update_after_round_end cfg e s Hopen). left. repeat split.
  - destruct (update cfg e s) as [[s' ev]|] eqn:Hup; [|reflexivity].
    destruct (update_open cfg e s s' ev Hopen Hup) as (s2 & H3 & H4).
    assert (Hopen2 : roundEnded s2 = false).
    { destruct (hasShot s).
      - apply puckPhysics_fields in H3.
        destruct H3 as (_ & _ & _ & _ & _ & _ & ->). exact Hopen.
      - apply shooterAI_fields in H3.
        destruct H3 as (_ & _ & _ & _ & _ & _ & ->). exact Hopen. }
    right. destruct (collision_events_shape s2 Hopen2)
      as [(st & Hne & Hcol)|(rs & Hev & Hlen & Hall & Hiff)].
    + left. split; [reflexivity|]. exists st. rewrite Hcol in H4.
      inversion H4; subst. repeat split. exact Hne.
    + right. split; [reflexivity|]. exists rs. rewrite <- H4 in Hev, Hiff.
      cbn [fst snd] in Hev, Hiff. repeat split; try assumption; apply Hiff.
Qed.

(** ** Pointer and keys *)

(** X11.  A touch start sets the dragging flag, puts the goalie at the touch
    point clamped to the box and picks the stick from the touch's y: DOWN
    above 396 (that is [0.66 * 600]), UP below 198, STRAIGHT from 198 to
    396.  So after a touch a DOWN stick goes with a goalie at y above 396,
    an UP stick with a goalie at y below 198, and a STRAIGHT stick with a
    goalie between the two. *)
Theorem touch_sets_goalie_and_stick (target : Vector2) (s : State) :
  let s' := handleTouchStart target s in
  isDragging s' = true
  /\ goaliePos s' = {| x := clampX (x target); y := clampY (y target) |}
  /\ inBox (goaliePos s')
  /\ (stickPos s' = DOWN <-> 396 < y target)
  /\ (stickPos s' = UP <-> y target < 198)
  /\ (stickPos s' = STRAIGHT <-> 198 <= y target <= 396)
  /\ (stickPos s' = DOWN -> 396 < y (goaliePos s'))
  /\ (stickPos s' = UP -> y (goaliePos s') < 198)
  /\ (stickPos s' = STRAIGHT -> 198 <= y (goaliePos s') <= 396).
Proof.
  intros s'. subst s'. unfold handleTouchStart, updateGoalieFromTouch.
  cbn [isDragging goaliePos stickPos x y].
  split; [reflexivity|]. split; [reflexivity|].
  split; [split; [apply clampX_range | apply clampY_range]|].
  pose proof (clampY_range (y target)) as Hr.
  assert (Hid : 50 <= y target <= 550 -> clampY (y target) = y target)
    by apply clampY_id.
  assert (Hlo : y target < 50 -> clampY (y target) = 50).
  { intros H. unfold clampY, CANVAS_HEIGHT, Rmax, Rmin.
    repeat destruct (Rle_dec _ _); lra. }
  assert (Hhi : 550 < y target -> clampY (y target) = 550).
  { intros H. unfold clampY, CANVAS_HEIGHT, Rmax, Rmin.
    repeat destruct (Rle_dec _ _); lra. }
  unfold CANVAS_HEIGHT.
  destruct (Rgtb (y target) (600 * 0.66)) eqn:Hd.
  - apply Rgtb_true in Hd.
    repeat split; intros; try discriminate; lra.
  - apply Rgtb_false in Hd.
    destruct (Rltb (y target) (600 * 0.33)) eqn:Hu.
    + apply Rltb_true in Hu.
      repeat split; intros; try discriminate; lra.
    + apply Rltb_false in Hu.
      repeat split; intros; try discriminate; lra.
Qed.

Lemma has_addKey (code other : string) (keys : list string) :
  has (addKey code keys) other = (String.eqb other code || has keys other).
Proof.
  unfold addKey, has. destruct (existsb (String.eqb code) keys) eqn:Hin.
  - destruct (String.eqb other code) eqn:Heq; [|reflexivity].
    apply String.eqb_eq in Heq. subst other. rewrite Hin. reflexivity.
  - rewrite existsb_app. cbn [existsb]. rewrite orb_false_r.
    apply orb_comm.
Qed.

Lemma has_deleteKey (code other : string) (keys : list string) :
  has (deleteKey code keys) other
  = (negb (String.eqb other code) && has keys other).
Proof.
  unfold deleteKey, has. induction keys as [|k ks IH]; cbn [filter existsb].
  - rewrite andb_false_r. reflexivity.
  - destruct (String.eqb code k) eqn:Hck; cbn [negb existsb].
    + apply String.eqb_eq in Hck. subst k. rewrite IH.
      destruct (String.eqb other code); reflexivity.
    + rewrite IH. destruct (String.eqb other k) eqn:Hok; [|reflexivity].
      apply String.eqb_eq in Hok. subst k.
      rewrite String.eqb_sym, Hck. reflexivity.
Qed.

(** X12.  While the round is open, pressing a key puts it in the set of
    held keys and releasing it takes it out again, without touching any
    other key; the release leaves the stick where the press put it; the
    keys 1/Z, 2/X and 3/C select UP, STRAIGHT and DOWN, and any other key
    leaves the stick alone. *)
Theorem key_press_then_release (code other : string) (s : State)
  (Hopen : roundEnded s = false) (Hother : other <> code) :
  let s1 := handleKeyDown code s in
  let s2 := handleKeyUp code s1 in
  has (keysPressed s1) code = true
  /\ has (keysPressed s1) other = has (keysPressed s) other
  /\ has (keysPressed s2) code = false
  /\ has (keysPressed s2) other = has (keysPressed s) other
  /\ stickPos s2 = stickPos s1
  /\ (In code ["Digit1"; "KeyZ"]%string -> stickPos s1 = UP)
  /\ (In code ["Digit2"; "KeyX"]%string -> stickPos s1 = STRAIGHT)
  /\ (In code ["Digit3"; "KeyC"]%string -> stickPos s1 = DOWN)
  /\ (~ In code ["Digit1"; "KeyZ"; "Digit2"; "KeyX"; "Digit3"; "KeyC"]%string
      -> stickPos s1 = stickPos s).
Proof.
  intros s1 s2. subst s1 s2. unfold handleKeyUp, handleKeyDown.
  rewrite Hopen. cbn [keysPressed stickPos].
  assert (Hne : String.eqb other code = false)
    by (apply String.eqb_neq; exact Hother).
  rewrite !has_deleteKey, !has_addKey, Hne, String.eqb_refl.
  cbn [negb andb orb].
  split; [reflexivity|]. split; [reflexivity|]. split; [reflexivity|].
  split; [reflexivity|]. split; [reflexivity|].
  unfold stickOfKey. repeat split.
  - intros [<-|[<-|[]]]; reflexivity.
  - intros [<-|[<-|[]]]; reflexivity.
  - intros [<-|[<-|[]]]; reflexivity.
  - intros Hnone.
    assert (forall k, In k ["Digit1"; "KeyZ"; "Digit2"; "KeyX"; "Digit3";
                            "KeyC"]%string -> String.eqb code k = false).
    { intros k Hk. apply String.eqb_neq. intros ->. exact (Hnone Hk). }
    rewrite !H by (cbn; tauto). reflexivity.
Qed.

Lemma key_press_then_release_witness :
  has (keysPressed (handleKeyUp "ArrowUp"
                      (handleKeyDown "ArrowUp" resetState))) "ArrowUp"
  = false
  /\ stickPos (handleKeyDown "KeyC" resetState) = DOWN.
Proof.
  assert (Hopen : roundEnded resetState = false) by reflexivity.
  assert (H1 : "KeyW"%string <> "ArrowUp"%string) by discriminate.
  assert (H2 : "KeyW"%string <> "KeyC"%string) by discriminate.
  destruct (key_press_then_release "ArrowUp" "KeyW" resetState Hopen H1)
    as (_ & _ & Hrel & _).
  destruct (key_press_then_release "KeyC" "KeyW" resetState Hopen H2)
    as (_ & _ & _ & _ & _ & _ & _ & Hdown & _).
  split; [exact Hrel|]. apply Hdown. cbn. tauto.
Defined.

(** X13.  After the round has ended, a run of frames and input events
    reports and draws nothing and leaves the simulation as it was: flags,
    shooter, puck, velocity, trail, stance, wind-up clock and frame count.
    Only a touch start still moves the goalie and the stick: without one in
    the run they stay as well, and no key is added to the held keys. *)
Theorem round_end_freezes_simulation (cfg : RoundConfig) (steps : list Step)
  (s : State) (Hended : roundEnded s = true) :
  exists s',
    run cfg steps s = Some (s', [])
    /\ roundEnded s' = true /\ hasShot s' = hasShot s
    /\ shooterPos s' = shooterPos s /\ puckPos s' = puckPos s
    /\ puckVel s' = puckVel s /\ puckTrail s' = puckTrail s
    /\ stanceLerp s' = stanceLerp s /\ windUpStart s' = windUpStart s
    /\ frameCount s' = frameCount s
    /\ ((forall target, ~ In (Input (TouchStart target)) steps) ->
        goaliePos s' = goaliePos s /\ stickPos s' = stickPos s
        /\ forall code, has (keysPressed s') code = true ->
                        has (keysPressed s) code = true).
Proof.
  revert s Hended. induction steps as [|st rest IH]; intros s Hended.
  - exists s. cbn [run]. repeat split; trivial.
  - destruct st as [e|i]; cbn [run].
    + rewrite (update_after_round_end cfg e s Hended).
      destruct (IH s Hended) as (s' & Hrun & Hrest). rewrite Hrun.
      exists s'. split; [reflexivity|].
      destruct Hrest as (H1 & H2 & H3 & H4 & H5 & H6 & H7 & H8 & H9 & H10).
      repeat (split; [assumption|]). intros Hno. apply H10.
      intros target Hin. apply (Hno target). right. exact Hin.
    + pose proof (handleInput_fields i s) as Hf. cbn zeta in Hf.
      destruct Hf as (F1 & F2 & F3 & F4 & F5 & F6 & F7 & F8).
      assert (Hended' : roundEnded (handleInput i s) = true)
        by (rewrite F2; exact Hended).
      destruct (IH (handleInput i s) Hended') as (s' & Hrun & Hrest).
      exists s'. split; [exact Hrun|].
      destruct Hrest as (H1 & H2 & H3 & H4 & H5 & H6 & H7 & H8 & H9 & H10).
      rewrite H2, H3, H4, H5, H6, H7, H8, H9, F1, F3, F4, F5, F6, F7, F8,
        handleInput_trail.
      repeat (split; [reflexivity || assumption|]). intros Hno.
      destruct H10 as (G1 & G2 & G3).
      { intros target Hin. apply (Hno target). right. exact Hin. }
      rewrite G1, G2.
      destruct i as [code|code|target|target|]; cbn [handleInput] in *.
      * unfold handleKeyDown in *. rewrite Hended in *.
        repeat split. exact G3.
      * repeat split. intros c Hc. apply G3 in Hc.
        unfold handleKeyUp in Hc. cbn [keysPressed] in Hc.
        rewrite has_deleteKey in Hc. apply andb_true_iff in Hc. tauto.
      * exfalso. apply (Hno target). left. reflexivity.
      * unfold handleTouchMove in *. rewrite Hended in *.
        rewrite andb_false_r in *. repeat split. exact G3.
      * repeat split. exact G3.
Qed.

Lemma round_end_freezes_simulation_witness :
  exists s',
    run (roundConfig 2)
      [Input (KeyDown "KeyC"); Frame midEnv;
       Input (TouchMove {| x := 60; y := 500 |}); Frame midEnv]
      (fst (endRound false None resetState)) = Some (s', [])
    /\ puckPos s' = puckPos resetState.
Proof.
  destruct (round_end_freezes_simulation (roundConfig 2)
              [Input (KeyDown "KeyC"); Frame midEnv;
               Input (TouchMove {| x := 60; y := 500 |}); Frame midEnv]
              (fst (endRound false None resetState)) eq_refl)
    as (s' & Hrun & _ & _ & _ & Hp & _).
  exists s'. split; [exact Hrun | exact Hp].
Defined.

(** ** The goalie's stride *)

Lemma clampX_near (v w : R) :
  50 <= v <= 140 -> Rabs (clampX w - v) <= Rabs (w - v).
Proof.
  intros Hv. unfold clampX, Rmax, Rmin, Rabs.
  repeat destruct (Rle_dec _ _); repeat destruct (Rcase_abs _); lra.
Qed.

Lemma clampY_near (v w : R) :
  50 <= v <= 550 -> Rabs (clampY w - v) <= Rabs (w - v).
Proof.
  intros Hv. unfold clampY, CANVAS_HEIGHT, Rmax, Rmin, Rabs.
  repeat destruct (Rle_dec _ _); repeat destruct (Rcase_abs _); lra.
Qed.

Lemma goalieMovement_stride (cfg : RoundConfig) (s : State) :
  inBox (goaliePos s) ->
  let speed := if hasPowerUp cfg then 8 else 4 in
  Rabs (x (goalieMovement cfg s) - x (goaliePos s)) <= speed
  /\ Rabs (y (goalieMovement cfg s) - y (goaliePos s)) <= speed
  /\ (isDragging s = true -> goalieMovement cfg s = goaliePos s).
Proof.
  intros [Hx Hy] speed. unfold goalieMovement.
  destruct (isDragging s).
  - replace (x (goaliePos s) - x (goaliePos s)) with 0 by ring.
    replace (y (goaliePos s) - y (goaliePos s)) with 0 by ring.
    rewrite Rabs_R0. subst speed.
    destruct (hasPowerUp cfg); repeat split; lra.
  - cbn [x y]. split; [|split; [|discriminate]].
    + eapply Rle_trans; [apply clampX_near; exact Hx|].
      subst speed. unfold Rabs.
      destruct (hasPowerUp cfg);
        repeat match goal with
          | |- context [if ?b then _ else _] => destruct b
          end; repeat destruct (Rcase_abs _); lra.
    + eapply Rle_trans; [apply clampY_near; exact Hy|].
      subst speed. unfold Rabs.
      destruct (hasPowerUp cfg);
        repeat match goal with
          | |- context [if ?b then _ else _] => destruct b
          end; repeat destruct (Rcase_abs _); lra.
Qed.

(** X14.  In one frame a goalie inside its box moves by at most 4 along
    each axis, 8 with the speed power-up, whatever keys are held; while the
    pointer drags, the frame leaves the goalie where the pointer put it. *)
Theorem goalie_stride_bounded (cfg : RoundConfig) (e : Env) (s : State)
  (Hbox : inBox (goaliePos s)) :
  match update cfg e s with
  | Some (s', _) =>
      let speed := if hasPowerUp cfg then 8 else 4 in
      Rabs (x (goaliePos s') - x (goaliePos s)) <= speed
      /\ Rabs (y (goaliePos s') - y (goaliePos s)) <= speed
      /\ (isDragging s = true -> goaliePos s' = goaliePos s)
  | None => True
  end.
Proof.
  destruct (update cfg e s) as [[s' ev]|] eqn:Hup; [|exact I].
  destruct (roundEnded s) eqn:Hopen.
  - rewrite (update_after_round_end cfg e s Hopen) in Hup.
    inversion Hup; subst.
    replace (x (goaliePos s') - x (goaliePos s')) with 0 by ring.
    replace (y (goaliePos s') - y (goaliePos s')) with 0 by ring.
    rewrite Rabs_R0. destruct (hasPowerUp cfg); repeat split; lra.
  - destruct (update_goalie_stick cfg e s s' ev Hopen Hup) as [-> _].
    exact (goalieMovement_stride cfg s Hbox).
Qed.

Lemma goalie_stride_bounded_witness :
  match update (roundConfig 9) midEnv
          (handleKeyDown "ArrowLeft" resetState) with
  | Some (s', _) =>
      let speed := if hasPowerUp (roundConfig 9) then 8 else 4 in
      Rabs (x (goaliePos s')
            - x (goaliePos (handleKeyDown "ArrowLeft" resetState))) <= speed
      /\ Rabs (y (goaliePos s')
               - y (goaliePos (handleKeyDown "ArrowLeft" resetState)))
         <= speed
      /\ (isDragging (handleKeyDown "ArrowLeft" resetState) = true ->
          goaliePos s' = goaliePos (handleKeyDown "ArrowLeft" resetState))
  | None => True
  end.
Proof.
  apply goalie_stride_bounded.
  unfold inBox, resetState, CANVAS_HEIGHT. cbn [goaliePos handleKeyDown
    roundEnded x y]. lra.
Defined.

(** ** The difficulty curve, as a whole *)

(** X15.  In every round 1..10 the derived configuration stays in range:
    shooter speed in [2, 6], shot speed in [8, 20], intelligence in
    [0.2, 1], jitter in [0, 0.8], curve factor in [0, 1.5]; at most one of
    the three modifiers is on; and the intelligence is above 0.5, the level
    at which [takeShot] aims at a corner, exactly from round 5 on. *)
Theorem roundConfig_ranges (n : Z) (Hn : (1 <= n <= 10)%Z) :
  let c := roundConfig n in
  2 <= shooterSpeed c <= 6
  /\ 8 <= shotSpeed c <= 20
  /\ 0.2 <= aiIntelligence c <= 1
  /\ 0 <= jitter c <= 0.8
  /\ 0 <= curveFactor c <= 1.5
  /\ isSlapShot c && hasPowerUp c = false
  /\ isSlapShot c && hasMagnet c = false
  /\ hasPowerUp c && hasMagnet c = false
  /\ (0.5 < aiIntelligence c <-> (5 <= n)%Z).
Proof.
  intros c. subst c.
  destruct (round_cases n Hn) as [E|[E|[E|[E|[E|[E|[E|[E|[E|E]]]]]]]]];
    subst n; unfold roundConfig; cbn [Z.eqb Pos.eqb shooterSpeed shotSpeed
      aiIntelligence jitter curveFactor isSlapShot hasPowerUp hasMagnet
      andb];
    Rcompare;
    repeat split; intros; try lra; try lia.
Qed.

Lemma roundConfig_ranges_witness :
  8 <= shotSpeed (roundConfig 4) <= 20
  /\ (0.5 < aiIntelligence (roundConfig 5) <-> (5 <= 5)%Z).
Proof.
  assert (H4 : (1 <= 4 <= 10)%Z) by lia.
  assert (H5 : (1 <= 5 <= 10)%Z) by lia.
  destruct (roundConfig_ranges 4 H4) as (_ & Hs & _).
  destruct (roundConfig_ranges 5 H5) as (_ & _ & _ & _ & _ & _ & _ & _ & Hi).
  split; [exact Hs | exact Hi].
Defined.

Lemma roundConfig_shotSpeed_cases (n : Z) :
  shotSpeed (roundConfig n)
  = (if (n =? 4)%Z then (8 + (IZR n - 1) / 9 * 12) * 1.2
     else 8 + (IZR n - 1) / 9 * 12).
Proof. unfold roundConfig. cbn [shotSpeed]. reflexivity. Qed.

(** X16.  From one round to a later one the shooter speed, the intelligence
    and the jitter strictly increase.  The shot speed increases as well,
    except from round 4 to round 5, where the slap shot's 1.2 factor makes
    round 4 the faster one; and the curve factor never decreases except
    after round 7, whose fixed 1.5 is above every later round's. *)
Theorem roundConfig_progression (n m : Z)
  (Hn : (1 <= n)%Z) (Hnm : (n < m)%Z) (Hm : (m <= 10)%Z) :
  shooterSpeed (roundConfig n) < shooterSpeed (roundConfig m)
  /\ aiIntelligence (roundConfig n) < aiIntelligence (roundConfig m)
  /\ jitter (roundConfig n) < jitter (roundConfig m)
  /\ (shotSpeed (roundConfig n) < shotSpeed (roundConfig m)
      <-> ~ (n = 4 /\ m = 5)%Z)
  /\ (curveFactor (roundConfig n) <= curveFactor (roundConfig m)
      <-> n <> 7%Z).
Proof.
  assert (Hlt : IZR n + 1 <= IZR m).
  { rewrite <- plus_IZR. apply IZR_le. lia. }
  assert (Hn1 : 1 <= IZR n) by (apply IZR_le; lia).
  assert (Hm10 : IZR m <= 10) by (apply IZR_le; lia).
  split; [unfold roundConfig; cbn [shooterSpeed]; lra|].
  split; [unfold roundConfig; cbn [aiIntelligence]; lra|].
  split; [unfold roundConfig; cbn [jitter]; lra|].
  split.
  - rewrite !roundConfig_shotSpeed_cases.
    destruct (n =? 4)%Z eqn:En; destruct (m =? 4)%Z eqn:Em.
    + apply Z.eqb_eq in En, Em. lia.
    + apply Z.eqb_eq in En. subst n.
      destruct (Z.eq_dec m 5) as [->|Hm5].
      * split; [intros H; exfalso; lra|intros H; exfalso; apply H; lia].
      * assert (6 <= IZR m) by (apply IZR_le; lia).
        split; [intros _ [_ H5]; exact (Hm5 H5)|intros _; lra].
    + apply Z.eqb_neq in En. split; [intros _ [H4 _]; exact (En H4)|].
      intros _. lra.
    + apply Z.eqb_neq in En. split; [intros _ [H4 _]; exact (En H4)|].
      intros _. lra.
  - assert (Hnn : (1 <= n <= 10)%Z) by lia.
    assert (Hmm : (1 <= m <= 10)%Z) by lia.
    destruct (round_cases n Hnn) as [E|[E|[E|[E|[E|[E|[E|[E|[E|E]]]]]]]]];
      subst n;
      destruct (round_cases m Hmm) as [F|[F|[F|[F|[F|[F|[F|[F|[F|F]]]]]]]]];
      subst m; try lia;
      unfold roundConfig; cbn [Z.eqb Pos.eqb curveFactor]; Rcompare;
      split; intros; try lra; try lia; try discriminate.
Qed.

Lemma roundConfig_progression_witness :
  shotSpeed (roundConfig 5) < shotSpeed (roundConfig 4)
  /\ curveFactor (roundConfig 8) < curveFactor (roundConfig 7).
Proof.
  assert (A1 : (1 <= 4)%Z) by lia. assert (A2 : (4 < 5)%Z) by lia.
  assert (A3 : (5 <= 10)%Z) by lia.
  assert (B1 : (1 <= 7)%Z) by lia. assert (B2 : (7 < 8)%Z) by lia.
  assert (B3 : (8 <= 10)%Z) by lia.
  destruct (roundConfig_progression 4 5 A1 A2 A3) as (_ & _ & _ & Hs & _).
  destruct (roundConfig_progression 7 8 B1 B2 B3) as (_ & _ & _ & _ & Hc).
  split.
  - apply Rnot_le_lt. intros Hle.
    destruct Hle as [Hlt|Heq].
    + apply Hs in Hlt. apply Hlt. split; reflexivity.
    + unfold roundConfig in Heq. cbn [shotSpeed Z.eqb Pos.eqb] in Heq. lra.
  - apply Rnot_le_lt. intros Hle. apply Hc in Hle. apply Hle. reflexivity.
Defined.

(** ** The shot *)

Lemma roundConfig_aim (n : Z) :
  (1 <= n <= 10)%Z ->
  0.2 <= aiIntelligence (roundConfig n) <= 1
  /\ 8 <= shotSpeed (roundConfig n).
Proof.
  intros Hn. assert (1 <= IZR n <= 10) by (split; apply IZR_le; lia).
  split; [unfold roundConfig; cbn [aiIntelligence]; lra|].
  rewrite roundConfig_shotSpeed_cases. destruct (n =? 4)%Z; lra.
Qed.

Lemma finalTargetY_in_mouth (cfg : RoundConfig) (rnd : R) :
  aiIntelligence cfg <= 1 -> 0 <= rnd < 1 ->
  GOAL_TOP + 15 <= finalTargetY cfg rnd <= GOAL_BOTTOM - 15.
Proof.
  intros Hai Hrnd. unfold finalTargetY, GOAL_TOP, GOAL_BOTTOM.
  destruct (Rgtb (aiIntelligence cfg) 0.5) eqn:Hsmart.
  - apply Rgtb_true in Hsmart. destruct (Rgtb rnd 0.5); nra.
  - lra.
Qed.

(** X17.  In every round 1..10, whatever the random draw, [takeShot] aims
    at a point of the goal line at least 15 inside the posts; from a puck
    right of the goal line it returns a velocity that points left, and
    along which the puck is exactly at the target point after
    [dist / shotSpeed] units of time. *)
Theorem shot_is_aimed_inside_the_goal (n : Z) (rnd : R) (s : State)
  (Hn : (1 <= n <= 10)%Z) (Hrnd : 0 <= rnd < 1)
  (Hright : GOAL_X < x (puckPos s)) :
  let cfg := roundConfig n in
  let ty := finalTargetY cfg rnd in
  let dist := hypot (GOAL_X - x (puckPos s)) (ty - y (puckPos s)) in
  GOAL_TOP + 15 <= ty <= GOAL_BOTTOM - 15
  /\ exists s',
       takeShot cfg rnd s = Some s'
       /\ x (puckVel s') < 0
       /\ x (puckPos s') + dist / shotSpeed cfg * x (puckVel s') = GOAL_X
       /\ y (puckPos s') + dist / shotSpeed cfg * y (puckVel s') = ty.
Proof.
  intros cfg ty dist. destruct (roundConfig_aim n Hn) as [Hai Hsp].
  fold cfg in Hai, Hsp.
  split; [apply finalTargetY_in_mouth; lra|].
  assert (Hd : dist <> 0).
  { unfold dist. intros H0. apply hypot_eq_0 in H0. lra. }
  assert (Hdp : 0 < dist).
  { pose proof (hypot_nonneg (GOAL_X - x (puckPos s)) (ty - y (puckPos s))).
    fold dist in H. lra. }
  unfold takeShot. fold ty dist. rewrite (proj2 (Reqb_false dist 0) Hd).
  eexists. split; [reflexivity|]. cbn [puckVel puckPos x y].
  split; [|split].
  - assert (Hq : (GOAL_X - x (puckPos s)) / dist < 0).
    { assert (Hmul : (GOAL_X - x (puckPos s)) / dist * dist
                     = GOAL_X - x (puckPos s)) by (field; exact Hd).
      nra. }
    nra.
  - field. split; lra.
  - field. split; lra.
Qed.

Lemma shot_is_aimed_inside_the_goal_witness :
  GOAL_TOP + 15 <= finalTargetY (roundConfig 10) 0.9 <= GOAL_BOTTOM - 15
  /\ exists s',
       takeShot (roundConfig 10) 0.9 carrying = Some s'
       /\ x (puckVel s') < 0.
Proof.
  assert (Hn : (1 <= 10 <= 10)%Z) by lia.
  assert (Hrnd : 0 <= 0.9 < 1) by lra.
  assert (Hright : GOAL_X < x (puckPos carrying))
    by (unfold GOAL_X, carrying; cbn [puckPos x]; lra).
  destruct (shot_is_aimed_inside_the_goal 10 0.9 carrying Hn Hrnd Hright)
    as (Hty & s' & Hs & Hv & _).
  split; [exact Hty|]. exists s'. split; [exact Hs | exact Hv].
Defined.

(** ** Straight flight *)

Lemma puckPhysics_straight (cfg : RoundConfig) (e : Env) (s : State) :
  hasMagnet cfg = false -> curveFactor cfg = 0 ->
  exists s2,
    puckPhysics cfg e s = Some s2
    /\ puckVel s2 = puckVel s
    /\ puckPos s2 = {| x := x (puckPos s) + x (puckVel s);
                       y := y (puckPos s) + y (puckVel s) |}
    /\ roundEnded s2 = roundEnded s /\ hasShot s2 = hasShot s.
Proof.
  intros Hm Hc. unfold puckPhysics, magnetPull, curveDrift.
  rewrite Hm, (proj2 (Reqb_true (curveFactor cfg) 0) Hc).
  eexists. split; [reflexivity|]. cbn. repeat split.
Qed.

(** A frame that leaves the round open left the puck short of the goal
    line and inside the canvas. *)
Lemma collision_open_clear (s : State) :
  roundEnded (fst (collisionDetection s)) = false ->
  GOAL_X + 5 <= x (puckPos s) /\ 0 <= y (puckPos s) <= CANVAS_HEIGHT.
Proof.
  unfold collisionDetection, goalLineCheck, canvasEdgeCheck.
  destruct (inBody s); [discriminate|].
  destruct (inStick s); [discriminate|].
  destruct (inGlove s); [discriminate|].
  destruct (inButterfly s); [discriminate|].
  destruct (pastGoalLine s) eqn:Hp.
  { destruct (inGoalMouth s); unfold outOfCanvas; cbn [endRound puckPos];
      match goal with
      | |- context [if ?b then _ else _] => destruct b
      end; discriminate. }
  destruct (outOfCanvas s) eqn:Ho; [discriminate|]. intros _.
  apply Rltb_false in Hp. unfold outOfCanvas in Ho.
  apply orb_false_iff in Ho. destruct Ho as [Ho Hy2].
  apply orb_false_iff in Ho. destruct Ho as [_ Hy1].
  apply Rltb_false in Hy1. apply Rgtb_false in Hy2. lra.
Qed.

Lemma update_straight (cfg : RoundConfig) (e : Env) (s s' : State)
  (ev : list Event) :
  hasMagnet cfg = false -> curveFactor cfg = 0 ->
  hasShot s = true -> roundEnded s = false ->
  update cfg e s = Some (s', ev) ->
  puckVel s' = puckVel s /\ hasShot s' = true
  /\ x (puckPos s') = x (puckPos s) + x (puckVel s)
  /\ y (puckPos s') = y (puckPos s) + y (puckVel s)
  /\ (roundEnded s' = false ->
      GOAL_X + 5 <= x (puckPos s') /\ 0 <= y (puckPos s') <= CANVAS_HEIGHT).
Proof.
  intros Hm Hc Hshot Hopen Hup.
  destruct (update_open cfg e s s' ev Hopen Hup) as (s2 & H3 & H4).
  rewrite Hshot in H3.
  destruct (puckPhysics_straight cfg e (animateAndMove cfg s) Hm Hc)
    as (s2' & Hph & Hv & Hp & _ & Hhs).
  rewrite H3 in Hph. inversion Hph; subst s2'.
  pose proof (collisionDetection_fields s2) as Hf.
  pose proof (collision_open_clear s2) as Hclear.
  rewrite <- H4 in Hf, Hclear. cbn [fst] in Hf, Hclear.
  destruct Hf as (_ & _ & _ & _ & Hp' & Hv' & _ & Hhs' & _).
  rewrite Hv', Hv, Hhs', Hhs, Hp', Hp.
  cbn [animateAndMove puckVel puckPos hasShot x y].
  split; [reflexivity|]. split; [exact Hshot|].
  split; [reflexivity|]. split; [reflexivity|].
  intros Hop. specialize (Hclear Hop). rewrite Hp in Hclear.
  cbn [animateAndMove puckVel puckPos x y] in Hclear. exact Hclear.
Qed.

Lemma frames_straight (cfg : RoundConfig) (es : list Env) :
  hasMagnet cfg = false -> curveFactor cfg = 0 ->
  forall s,
    hasShot s = true -> liveFrames cfg es s ->
    exists s' ev,
      frames cfg es s = Some (s', ev)
      /\ puckVel s' = puckVel s
      /\ x (puckPos s')
         = x (puckPos s) + INR (List.length es) * x (puckVel s)
      /\ y (puckPos s')
         = y (puckPos s) + INR (List.length es) * y (puckVel s)
      /\ (es <> [] -> roundEnded s' = false ->
          GOAL_X + 5 <= x (puckPos s')
          /\ 0 <= y (puckPos s') <= CANVAS_HEIGHT).
Proof.
  intros Hm Hc. induction es as [|e es IH]; intros s Hshot Hlive.
  - exists s, []. cbn [frames List.length INR].
    split; [reflexivity|]. split; [reflexivity|]. split; [lra|].
    split; [lra|]. intros Hne. exfalso. apply Hne. reflexivity.
  - cbn [liveFrames] in Hlive. destruct Hlive as [Hopen Hrest].
    destruct (update cfg e s) as [[s1 ev1]|] eqn:Hup; [|destruct Hrest].
    destruct (update_straight cfg e s s1 ev1 Hm Hc Hshot Hopen Hup)
      as (Hv1 & Hs1 & Hx1 & Hy1 & Hclear1).
    destruct (IH s1 Hs1 Hrest) as (s' & ev' & Hrun & Hv & Hx & Hy & Hclear).
    exists s', (ev1 ++ ev'). cbn [frames]. rewrite Hup, Hrun.
    split; [reflexivity|]. split; [congruence|].
    change (List.length (e :: es)) with (S (List.length es)).
    split; [rewrite S_INR, Hx, Hx1, Hv1; ring|].
    split; [rewrite S_INR, Hy, Hy1, Hv1; ring|]. intros _ Hop.
    destruct es as [|e2 es2].
    + cbn [frames] in Hrun. inversion Hrun; subst s'. exact (Hclear1 Hop).
    + apply Hclear; [discriminate|exact Hop].
Qed.

(** X18.  Without the magnet and without curve (rounds 1 to 4), a released
    puck flies straight: over [N] consecutive open frames its velocity does
    not change and its position moves by [N] times the velocity.  If the
    round is still open after these frames ([N >= 1]), the puck is still
    short of the goal line and inside the canvas, so a puck moving left is
    resolved within [(x - 45) / |vx|] frames, plus one. *)
Theorem straight_flight (cfg : RoundConfig) (es : list Env) (s : State)
  (Hmagnet : hasMagnet cfg = false) (Hcurve : curveFactor cfg = 0)
  (Hshot : hasShot s = true) (Hlive : liveFrames cfg es s) :
  exists s' ev,
    frames cfg es s = Some (s', ev)
    /\ puckVel s' = puckVel s
    /\ x (puckPos s') = x (puckPos s) + INR (List.length es) * x (puckVel s)
    /\ y (puckPos s') = y (puckPos s) + INR (List.length es) * y (puckVel s)
    /\ (es <> [] -> roundEnded s' = false ->
        INR (List.length es) * (- x (puckVel s))
        <= x (puckPos s) - (GOAL_X + 5)
        /\ 0 <= y (puckPos s') <= CANVAS_HEIGHT).
Proof.
  destruct (frames_straight cfg es Hmagnet Hcurve s Hshot Hlive)
    as (s' & ev & Hrun & Hv & Hx & Hy & Hclear).
  exists s', ev. repeat (split; [assumption|]).
  intros Hne Hop. destruct (Hclear Hne Hop) as [Hcx Hcy].
  split; [lra|exact Hcy].
Qed.

Lemma crouching_live : liveFrames (roundConfig 1) [midEnv; midEnv] crouching.
Proof.
  cbn [liveFrames]. unfold_frame.
  unfold crouching, midEnv, roundConfig. frame_fields.
  rewrite (clampX_id 100), (clampY_id 300) by lra.
  eval_frame. cbn [app]. frame_fields.
  rewrite (clampX_id 100), (clampY_id 300) by lra.
  eval_frame. cbn [app]. tauto.
Qed.

Lemma straight_flight_witness :
  exists s' ev,
    frames (roundConfig 1) [midEnv; midEnv] crouching = Some (s', ev)
    /\ x (puckPos s') = 600 + INR 2 * -8.
Proof.
  assert (Hc : curveFactor (roundConfig 1) = 0).
  { unfold roundConfig. cbn [curveFactor Z.eqb Pos.eqb]. Rcompare.
    reflexivity. }
  destruct (straight_flight (roundConfig 1) [midEnv; midEnv] crouching
              eq_refl Hc eq_refl crouching_live)
    as (s' & ev & Hrun & _ & Hx & _).
  exists s', ev. split; [exact Hrun | exact Hx].
Defined.

(** ** The round manager *)

Lemma appRun_snoc (evs : list AppEvent) (ev : AppEvent) (a : AppState) :
  appRun (evs ++ [ev]) a = appStep ev (appRun evs a).
Proof. unfold appRun. rewrite fold_left_app. reflexivity. Qed.

Lemma appRun_app (evs1 evs2 : list AppEvent) (a : AppState) :
  appRun (evs1 ++ evs2) a = appRun evs2 (appRun evs1 a).
Proof. unfold appRun. apply fold_left_app. Qed.

(** X19.  Whatever the user and the canvas do, in any order, from the
    initial screen: the round number stays in 1..10; the score is never
    negative, never above the round number, and below it while a round is
    being played; the two streak counters are never negative and never both
    positive, and the save streak never exceeds the score; a goal streak of
    3 or more has the hat-trick flag on and a save streak of 6 or more the
    octopus flag; and [magnetActive] is never true. *)
Theorem app_invariants (evs : list AppEvent) :
  let a := appRun evs initialApp in
  (1 <= currentRound a <= 10)%Z
  /\ (0 <= score a <= currentRound a)%Z
  /\ (gameState a = PLAYING -> score a < currentRound a)%Z
  /\ (gameState a = ROUND_TRANSITION -> currentRound a <= 9)%Z
  /\ (0 <= consecutiveSaves a <= score a)%Z
  /\ (0 <= consecutiveAIScores a)%Z
  /\ (consecutiveSaves a = 0 \/ consecutiveAIScores a = 0)%Z
  /\ ((3 <= consecutiveAIScores a)%Z -> hatTrickActive a = true)
  /\ ((6 <= consecutiveSaves a)%Z -> octopusActive a = true)
  /\ magnetActive a = false.
Proof.
  induction evs as [|ev evs IH] using rev_ind.
  - cbn. repeat split; intros; try discriminate; try reflexivity; lia.
  - rewrite appRun_snoc. cbn zeta in IH.
    destruct IH as (H1 & H2 & H3 & H4 & H5 & H6 & H7 & H8 & H9 & H10).
    set (a := appRun evs initialApp) in *. cbn zeta.
    destruct ev as [|ok| | |]; unfold appStep;
      destruct (gameState a) eqn:Hg;
      try specialize (H3 eq_refl); try specialize (H4 eq_refl);
      unfold startGame, handleRoundEnd, proceedToNextOrEnd, nextRound,
        resetGame;
      try destruct ok;
      cbn [gameState currentRound score consecutiveAIScores hatTrickActive
           consecutiveSaves octopusActive magnetActive];
      rewrite ?Hg;
      try (destruct (10 <=? currentRound a)%Z eqn:E;
           [apply Z.leb_le in E | apply Z.leb_gt in E]);
      try (destruct (consecutiveSaves a =? 5)%Z eqn:E5;
           [apply Z.eqb_eq in E5 | apply Z.eqb_neq in E5]);
      try (destruct (consecutiveAIScores a =? 2)%Z eqn:E2;
           [apply Z.eqb_eq in E2 | apply Z.eqb_neq in E2]);
      repeat split; intros; try discriminate; try reflexivity; try lia;
      try (apply H8; lia); try (apply H9; lia); try assumption.
Qed.

(** One round, computed: the report, then the next button, then (unless the
    game is over) the transition timer. *)
Lemma playRound_result (ok : bool) (a : AppState) :
  gameState a = PLAYING ->
  appRun (playRound ok) a
  = (if (10 <=? currentRound a)%Z
     then proceedToNextOrEnd (handleRoundEnd a ok a)
     else nextRound (proceedToNextOrEnd (handleRoundEnd a ok a))).
Proof.
  intros Hplay.
  change (appRun (playRound ok) a)
    with (appStep TransitionTimer
            (appStep Proceed (appStep (RoundEnd ok) a))).
  assert (E1 : appStep (RoundEnd ok) a = handleRoundEnd a ok a)
    by (unfold appStep; rewrite Hplay; reflexivity).
  rewrite E1.
  assert (E2 : appStep Proceed (handleRoundEnd a ok a)
               = proceedToNextOrEnd (handleRoundEnd a ok a))
    by (destruct ok; reflexivity).
  rewrite E2.
  assert (Hc : currentRound (handleRoundEnd a ok a) = currentRound a)
    by (destruct ok; reflexivity).
  unfold appStep, proceedToNextOrEnd at 1 3. cbn [gameState]. rewrite Hc.
  destruct (10 <=? currentRound a)%Z eqn:E.
  - unfold proceedToNextOrEnd. rewrite Hc, E. reflexivity.
  - unfold proceedToNextOrEnd. rewrite Hc, E. reflexivity.
Qed.

Lemma playRounds_from (oks : list bool) :
  forall a : AppState,
    gameState a = PLAYING ->
    (1 <= currentRound a <= 10)%Z ->
    (currentRound a + Z.of_nat (List.length oks) <= 11)%Z ->
    let a' := appRun (flat_map playRound oks) a in
    score a'
    = (score a + Z.of_nat (List.length (filter (fun ok => ok) oks)))%Z
    /\ ((currentRound a + Z.of_nat (List.length oks) <= 10)%Z ->
        gameState a' = PLAYING
        /\ currentRound a'
           = (currentRound a + Z.of_nat (List.length oks))%Z)
    /\ ((currentRound a + Z.of_nat (List.length oks) = 11)%Z ->
        gameState a' = GAME_OVER /\ currentRound a' = 10%Z).
Proof.
  induction oks as [|ok oks IH]; intros a Hplay Hr Hlen.
  - cbn. rewrite Hplay. repeat split; intros; try reflexivity; lia.
  - cbn [flat_map]. cbn zeta. rewrite appRun_app.
    cbn [List.length] in Hlen |- *. rewrite Nat2Z.inj_succ in Hlen |- *.
    assert (Hround :
      let a1 := appRun (playRound ok) a in
      score a1 = (score a + (if ok then 1 else 0))%Z
      /\ ((currentRound a <= 9)%Z ->
          gameState a1 = PLAYING
          /\ currentRound a1 = (currentRound a + 1)%Z)
      /\ ((currentRound a = 10)%Z ->
          gameState a1 = GAME_OVER /\ currentRound a1 = 10%Z)).
    { cbn zeta. rewrite (playRound_result ok a Hplay).
      destruct (10 <=? currentRound a)%Z eqn:E;
        [pose proof (proj1 (Z.leb_le _ _) E) as Hcmp
        |pose proof (proj1 (Z.leb_gt _ _) E) as Hcmp];
        destruct ok; cbn; rewrite ?E;
        repeat split; intros; try lia; reflexivity. }
    cbn zeta in Hround. destruct Hround as (Hs1 & Hnext & Hlast).
    destruct (Z.eq_dec (currentRound a) 10) as [H10|H10].
    + destruct oks as [|ok2 oks2];
        [|cbn [List.length] in Hlen; rewrite Nat2Z.inj_succ in Hlen; lia].
      cbn [flat_map].
      change (appRun [] (appRun (playRound ok) a))
        with (appRun (playRound ok) a).
      destruct (Hlast H10) as [Hg Hc]. rewrite Hs1, Hg, Hc.
      destruct ok; cbn [filter List.length];
        repeat split; intros; try lia; reflexivity.
    + destruct (Hnext ltac:(lia)) as [Hg Hc].
      assert (Hr1 : (1 <= currentRound (appRun (playRound ok) a) <= 10)%Z)
        by (rewrite Hc; lia).
      assert (Hb1 : (currentRound (appRun (playRound ok) a)
                     + Z.of_nat (List.length oks) <= 11)%Z)
        by (rewrite Hc; lia).
      specialize (IH (appRun (playRound ok) a) Hg Hr1 Hb1).
      cbn zeta in IH. destruct IH as (IHs & IHp & IHo).
      split; [rewrite IHs, Hs1; destruct ok; cbn [filter List.length];
              rewrite ?Nat2Z.inj_succ; lia|].
      split; intros Hb.
      * assert (Hle : (currentRound (appRun (playRound ok) a)
                       + Z.of_nat (List.length oks) <= 10)%Z)
          by (rewrite Hc; lia).
        destruct (IHp Hle) as [Hg' Hc'].
        split; [exact Hg'|rewrite Hc', Hc; lia].
      * apply IHo. rewrite Hc. lia.
Qed.

(** X20.  A game is ten rounds: starting from the menu and playing [k]
    rounds, each one reported once, followed by the next button and the
    transition timer, the score is the number of saves among them; for
    [k < 10] the game is playing round [k + 1]; after the tenth round it is
    over, with the round number still 10. *)
Theorem game_is_ten_rounds (oks : list bool)
  (Hlen : (List.length oks <= 10)%nat) :
  let a := appRun (StartGame :: flat_map playRound oks) initialApp in
  score a = Z.of_nat (List.length (filter (fun ok => ok) oks))
  /\ ((List.length oks < 10)%nat ->
      gameState a = PLAYING
      /\ currentRound a = (Z.of_nat (List.length oks) + 1)%Z)
  /\ (List.length oks = 10%nat ->
      gameState a = GAME_OVER /\ currentRound a = 10%Z).
Proof.
  cbn zeta. change (StartGame :: flat_map playRound oks)
    with ([StartGame] ++ flat_map playRound oks).
  rewrite appRun_app.
  change (appRun [StartGame] initialApp) with (startGame initialApp).
  assert (Hplay : gameState (startGame initialApp) = PLAYING) by reflexivity.
  assert (Hr : (1 <= currentRound (startGame initialApp) <= 10)%Z)
    by (cbn; lia).
  assert (Hb : (currentRound (startGame initialApp)
                + Z.of_nat (List.length oks) <= 11)%Z)
    by (change (currentRound (startGame initialApp)) with 1%Z; lia).
  pose proof (playRounds_from oks (startGame initialApp) Hplay Hr Hb) as H.
  cbn zeta in H. destruct H as (Hs & Hp & Ho).
  change (currentRound (startGame initialApp)) with 1%Z in Hp, Ho.
  change (score (startGame initialApp)) with 0%Z in Hs.
  split; [rewrite Hs; lia|]. split; intros Hk.
  - destruct (Hp ltac:(lia)) as [-> ->]. split; [reflexivity|lia].
  - apply Ho. lia.
Qed.

Lemma game_is_ten_rounds_witness :
  score (appRun (StartGame :: flat_map playRound [true; false; true])
           initialApp) = 2%Z
  /\ currentRound (appRun (StartGame
                             :: flat_map playRound [true; false; true])
                     initialApp) = 4%Z.
Proof.
  assert (Hlen : (List.length [true; false; true] <= 10)%nat) by (cbn; lia).
  destruct (game_is_ten_rounds [true; false; true] Hlen) as (Hs & Hp & _).
  split; [exact Hs|]. destruct Hp as [_ Hc]; [cbn; lia|exact Hc].
Defined.

(** X21.  While a round is being played, a reported goal turns the
    hat-trick flag on exactly when it was on already or the goal streak
    stood at 2; a reported save turns the octopus flag on exactly when it
    was on already or the save streak stood at 5.  Nothing but starting a
    new game from the menu turns either flag off: in particular a save
    leaves the hat-trick flag on. *)
Theorem streak_flags (a : AppState) (ev : AppEvent)
  (Hplay : gameState a = PLAYING) :
  (hatTrickActive (appStep (RoundEnd false) a) = true
   <-> hatTrickActive a = true \/ consecutiveAIScores a = 2%Z)
  /\ (octopusActive (appStep (RoundEnd true) a) = true
      <-> octopusActive a = true \/ consecutiveSaves a = 5%Z)
  /\ (forall b : AppState,
        ev <> StartGame ->
        (hatTrickActive b = true -> hatTrickActive (appStep ev b) = true)
        /\ (octopusActive b = true -> octopusActive (appStep ev b) = true)).
Proof.
  split; [|split].
  - unfold appStep. rewrite Hplay. cbn.
    destruct (consecutiveAIScores a =? 2)%Z eqn:E.
    + apply Z.eqb_eq in E. tauto.
    + apply Z.eqb_neq in E. tauto.
  - unfold appStep. rewrite Hplay. cbn.
    destruct (consecutiveSaves a =? 5)%Z eqn:E.
    + apply Z.eqb_eq in E. tauto.
    + apply Z.eqb_neq in E. tauto.
  - intros b Hne. unfold appStep.
    destruct ev as [|ok| | |]; [exfalso; apply Hne; reflexivity| | | |];
      destruct (gameState b); try (split; intros H; exact H).
    + unfold handleRoundEnd. destruct ok; cbn; split; intros H;
        rewrite ?H; try reflexivity;
        match goal with
        | |- (if ?c then true else true) = true => destruct c; reflexivity
        end.
Qed.

Lemma streak_flags_witness :
  hatTrickActive
    (appStep (RoundEnd false)
       (mkAppState PLAYING 3 0 2 false 0 false false)) = true.
Proof.
  destruct (streak_flags (mkAppState PLAYING 3 0 2 false 0 false false)
              Proceed eq_refl) as (Hhat & _).
  apply Hhat. right. reflexivity.
Defined.

(** X22.  When the canvas reports twice before [App] renders again (both
    calls reach the same [handleRoundEnd] closure and their updaters run in
    order): two saves add 2 to the score and to the save streak; a goal
    followed by a save ends in ROUND_WON with the score up by 1, the goal
    streak at 0 and the save streak at 1. *)
Theorem two_reports_in_one_render (a : AppState) :
  let twice := handleRoundEnd a true (handleRoundEnd a true a) in
  let mixed := handleRoundEnd a true (handleRoundEnd a false a) in
  gameState twice = ROUND_WON
  /\ score twice = (score a + 2)%Z
  /\ consecutiveSaves twice = (consecutiveSaves a + 2)%Z
  /\ gameState mixed = ROUND_WON
  /\ score mixed = (score a + 1)%Z
  /\ consecutiveAIScores mixed = 0%Z
  /\ consecutiveSaves mixed = 1%Z
  /\ currentRound twice = currentRound a
  /\ currentRound mixed = currentRound a.
Proof.
  unfold handleRoundEnd. cbn. repeat split; lia.
Qed.

(** ** The falling caps *)

Lemma spawnHats_ok (rnd : nat -> R) :
  (forall k, 0 <= rnd k < 1) ->
  Forall hatOk (spawnHats rnd) /\ List.length (spawnHats rnd) = 30%nat.
Proof.
  intros Hrnd. unfold spawnHats. split.
  - apply Forall_map. apply Forall_forall. intros i _.
    unfold hatOk, CANVAS_WIDTH, CANVAS_HEIGHT. cbn [x y].
    pose proof (Hrnd (2 * i)%nat). pose proof (Hrnd (2 * i + 1)%nat). lra.
  - rewrite length_map, length_seq. reflexivity.
Qed.

Lemma drawHats_ok (rnd : nat -> R) (hats : list Vector2) :
  (forall k, 0 <= rnd k < 1) ->
  forall i, Forall hatOk hats ->
    Forall hatOk (drawHats rnd i hats)
    /\ List.length (drawHats rnd i hats) = List.length hats.
Proof.
  intros Hrnd. induction hats as [|hat rest IH]; intros i Hok;
    cbn [drawHats List.length].
  - split; [constructor|reflexivity].
  - inversion Hok as [|? ? Hhat Hrest]; subst.
    destruct (IH (S i) Hrest) as [Hall Hlen]. split; [|rewrite Hlen; reflexivity].
    constructor; [|exact Hall].
    unfold fallHat, hatOk, CANVAS_WIDTH, CANVAS_HEIGHT in *.
    pose proof (Hrnd i).
    destruct (Rgtb (y hat + 2) 600) eqn:Hwrap; cbn [x y].
    + lra.
    + apply Rgtb_false in Hwrap. lra.
Qed.

(** X23.  The caps of the hat-trick rain: after the effect and any draw
    there are none when the flag is off and exactly 30 when it is on, and
    every cap is within the canvas horizontally and between 20 above its
    top and its bottom vertically (a cap that falls below the bottom
    re-enters 20 above the top). *)
Theorem hats_stay_on_canvas (rnd : nat -> R) (active : bool)
  (hats : list Vector2) (i : nat)
  (Hrnd : forall k, 0 <= rnd k < 1)
  (Hok : Forall hatOk hats)
  (Hcount : List.length hats = 0%nat \/ List.length hats = 30%nat) :
  let hats' := drawHats rnd i (hatTrickEffect active rnd hats) in
  Forall hatOk hats'
  /\ (active = false -> hats' = [])
  /\ (active = true -> List.length hats' = 30%nat).
Proof.
  cbn zeta. destruct (spawnHats_ok rnd Hrnd) as [Hsp Hsl].
  assert (Heff : Forall hatOk (hatTrickEffect active rnd hats)
                 /\ (active = false -> hatTrickEffect active rnd hats = [])
                 /\ (active = true ->
                     List.length (hatTrickEffect active rnd hats) = 30%nat)).
  { unfold hatTrickEffect. destruct active; cbn [andb negb].
    - destruct (List.length hats =? 0)%nat eqn:E.
      + repeat split; try assumption. discriminate.
      + apply Nat.eqb_neq in E. repeat split; try assumption;
          [discriminate|intros _; lia].
    - repeat split; [constructor|discriminate]. }
  destruct Heff as (Hall & Hoff & Hon).
  destruct (drawHats_ok rnd _ Hrnd i Hall) as [Hd Hl].
  split; [exact Hd|]. split.
  - intros Ha. rewrite (Hoff Ha). reflexivity.
  - intros Ha. rewrite Hl. exact (Hon Ha).
Qed.

Lemma hats_stay_on_canvas_witness :
  List.length (drawHats (fun _ => 0.5) 0
                 (hatTrickEffect true (fun _ => 0.5) [])) = 30%nat.
Proof.
  assert (Hrnd : forall k : nat, 0 <= (fun _ : nat => 0.5) k < 1)
    by (intros k; lra).
  destruct (hats_stay_on_canvas (fun _ => 0.5) true [] 0 Hrnd
              (Forall_nil hatOk) (or_introl eq_refl)) as (_ & _ & Hon).
  exact (Hon eq_refl).
Defined.

(** ** The commentary *)

(** X24.  [getCommentary] always returns a text, and never an empty one:
    without a client it is the fixed sentence for a save or for a goal; when
    the remote call throws it is the fixed fallback; when the call answers
    with a non-empty text it is that text, and with no text or an empty one
    it is the fixed default. *)
Theorem commentary_is_never_empty
  (genAI : option (Prompt -> ServiceReply)) (round : Z) (won : bool)
  (label : string) (saveType : option SaveType) :
  let said := getCommentary genAI round won label saveType in
  said <> ""%string
  /\ (genAI = None ->
      said = if won then "Great save! Ready for the next round?"%string
             else "Goal! Shake it off, goalie."%string)
  /\ (forall call text,
        genAI = Some call ->
        call (commentaryPrompt round won label saveType)
        = Replies (Some text) ->
        text <> ""%string -> said = text)
  /\ (forall call,
        genAI = Some call ->
        call (commentaryPrompt round won label saveType) = Throws ->
        said = if won then "Spectacular save!"%string
               else "Tough break, goalie!"%string).
Proof.
  cbn zeta. split; [|split; [|split]].
  - unfold getCommentary. destruct genAI as [call|].
    + destruct (call _) as [|[text|]].
      * destruct won; discriminate.
      * unfold nonEmpty. destruct (String.eqb text "") eqn:E; cbn [negb].
        -- destruct won; discriminate.
        -- apply String.eqb_neq in E. exact E.
      * destruct won; discriminate.
    + destruct won; discriminate.
  - intros ->. reflexivity.
  - intros call text -> Hreply Hne. unfold getCommentary. rewrite Hreply.
    unfold nonEmpty. apply String.eqb_neq in Hne. rewrite Hne. reflexivity.
  - intros call -> Hreply. unfold getCommentary. rewrite Hreply.
    reflexivity.
Qed.

(** X25.  The shot label that [handleRoundEnd] computes from the round's
    configuration and hands to the commentary prompt is "Slap Shot" in
    round 4, "Curveball" in round 7, "Power Shot" in round 9 and
    "Standard Shot" in every other round, the magnet round 5 and the other
    curving rounds included; a goal is always described to the service as
    "ALLOWED a goal.", whatever save type is passed along. *)
Theorem commentary_prompt_by_round (n : Z) (won : bool)
  (saveType : option SaveType) :
  let prompt :=
    commentaryPrompt n won (shotType (roundConfig n) n) saveType in
  promptRound prompt = n
  /\ promptShotType prompt
     = (if (n =? 4)%Z then "Slap Shot"
        else if (n =? 7)%Z then "Curveball"
        else if (n =? 9)%Z then "Power Shot"
        else "Standard Shot")%string
  /\ (won = false -> promptOutcome prompt = "ALLOWED a goal."%string).
Proof.
  cbn zeta. split; [reflexivity|]. split.
  - unfold commentaryPrompt, shotType, roundConfig.
    cbn [promptShotType isSlapShot hasPowerUp].
    destruct (n =? 4)%Z eqn:E4; destruct (n =? 7)%Z eqn:E7;
      destruct (n =? 9)%Z eqn:E9; try reflexivity; exfalso;
      repeat match goal with
        | H : (_ =? _)%Z = true |- _ => apply Z.eqb_eq in H
        end; lia.
  - intros ->. reflexivity.
Qed.

(** ** The curve *)

(** X26.  In flight without the magnet, a frame moves the puck by its
    velocity, never changes the horizontal velocity, and changes the
    vertical velocity by at most [0.2 * curveFactor] (0.3 in round 7), and
    not at all when the curve factor is 0. *)
Theorem curve_drift_bounded (cfg : RoundConfig) (e : Env) (s : State)
  (Hmagnet : hasMagnet cfg = false) (Hcurve : 0 <= curveFactor cfg)
  (Hrnd : 0 <= rnd_curve e < 1)
  (Hshot : hasShot s = true) (Hopen : roundEnded s = false) :
  exists s' ev,
    update cfg e s = Some (s', ev)
    /\ puckPos s' = {| x := x (puckPos s) + x (puckVel s);
                       y := y (puckPos s) + y (puckVel s) |}
    /\ x (puckVel s') = x (puckVel s)
    /\ Rabs (y (puckVel s') - y (puckVel s)) <= 0.2 * curveFactor cfg
    /\ (curveFactor cfg = 0 -> puckVel s' = puckVel s).
Proof.
  assert (Hph : puckPhysics cfg e (animateAndMove cfg s)
                = Some (mkState (goalieMovement cfg s) (stickPos s)
                          (stanceStep (stickPos s) (stanceLerp s))
                          (shooterPos s)
                          {| x := x (puckPos s) + x (puckVel s);
                             y := y (puckPos s) + y (puckVel s) |}
                          (curveDrift cfg e (puckVel s))
                          (pushTrail (puckTrail s)
                             {| x := x (puckPos s) + x (puckVel s);
                                y := y (puckPos s) + y (puckVel s) |})
                          (hasShot s) (roundEnded s) (keysPressed s)
                          (windUpStart s) (isDragging s)
                          (frameCount s + 1)%Z)).
  { unfold puckPhysics, magnetPull. rewrite Hmagnet. reflexivity. }
  destruct (collisionDetection
              (mkState (goalieMovement cfg s) (stickPos s)
                 (stanceStep (stickPos s) (stanceLerp s)) (shooterPos s)
                 {| x := x (puckPos s) + x (puckVel s);
                    y := y (puckPos s) + y (puckVel s) |}
                 (curveDrift cfg e (puckVel s))
                 (pushTrail (puckTrail s)
                    {| x := x (puckPos s) + x (puckVel s);
                       y := y (puckPos s) + y (puckVel s) |})
                 (hasShot s) (roundEnded s) (keysPressed s)
                 (windUpStart s) (isDragging s) (frameCount s + 1)%Z))
    as [s' ev] eqn:Hcol.
  exists s', ev.
  pose proof (collisionDetection_fields
                (mkState (goalieMovement cfg s) (stickPos s)
                   (stanceStep (stickPos s) (stanceLerp s)) (shooterPos s)
                   {| x := x (puckPos s) + x (puckVel s);
                      y := y (puckPos s) + y (puckVel s) |}
                   (curveDrift cfg e (puckVel s))
                   (pushTrail (puckTrail s)
                      {| x := x (puckPos s) + x (puckVel s);
                         y := y (puckPos s) + y (puckVel s) |})
                   (hasShot s) (roundEnded s) (keysPressed s)
                   (windUpStart s) (isDragging s) (frameCount s + 1)%Z))
    as Hf.
  rewrite Hcol in Hf. cbn [fst puckPos puckVel] in Hf.
  destruct Hf as (_ & _ & _ & _ & Hp & Hv & _).
  split.
  - unfold update. rewrite Hopen.
    replace (negb (hasShot (animateAndMove cfg s))) with false
      by (cbn [animateAndMove hasShot]; rewrite Hshot; reflexivity).
    rewrite Hph, Hcol. reflexivity.
  - split; [exact Hp|]. rewrite Hv. unfold curveDrift.
    destruct (Reqb (curveFactor cfg) 0) eqn:Hz.
    + apply Reqb_true in Hz.
      replace (y (puckVel s) - y (puckVel s)) with 0 by ring.
      rewrite Rabs_R0. repeat split. lra.
    + apply Reqb_false in Hz. cbn [x y].
      split; [reflexivity|]. split; [|intros H0; contradiction].
      replace (y (puckVel s) + (rnd_curve e - 0.5) * curveFactor cfg * 0.4
               - y (puckVel s))
        with ((rnd_curve e - 0.5) * curveFactor cfg * 0.4) by ring.
      unfold Rabs. destruct (Rcase_abs _); nra.
Qed.

Lemma curve_drift_bounded_witness :
  exists s' ev,
    update (roundConfig 7) midEnv crouching = Some (s', ev)
    /\ Rabs (y (puckVel s') - y (puckVel crouching))
       <= 0.2 * curveFactor (roundConfig 7).
Proof.
  assert (Hc : 0 <= curveFactor (roundConfig 7))
    by (unfold roundConfig; cbn [curveFactor Z.eqb Pos.eqb]; lra).
  assert (Hrnd : 0 <= rnd_curve midEnv < 1)
    by (cbn [rnd_curve midEnv]; lra).
  destruct (curve_drift_bounded (roundConfig 7) midEnv crouching eq_refl Hc
              Hrnd eq_refl eq_refl) as (s' & ev & Hup & _ & _ & Hb & _).
  exists s', ev. split; [exact Hup | exact Hb].
Defined.
